(** * Magritte [tools.py]: radiative-transfer helpers and the FITS exporter

    A shallow embedding of [src/magritte/tools.py] and the properties of
    its functions.

    Numbers.  A NumPy [float64] is modelled by [num]: an exact real, or one
    of the three special values of IEEE 754 arithmetic ([+inf], [-inf],
    [NaN]).  Rounding, overflow and the sign of zero are not modelled (a
    zero divisor counts as [+0]); division by zero, which NumPy answers
    with [inf] or [NaN] and a warning instead of an exception, is.

    Exceptions.  A Python function that can raise returns a [result].

    Effects.  [save_fits] reads and changes the file system and prints; it
    is a function from [world] to a [result] and the next [world]. *)

From Stdlib Require Import Reals Lra Lia ZArith List String.
From stdpp Require Import base option list list_monad gmap strings.

Local Open Scope R_scope.

(* ===================================================================== *)
(** ** Floating-point values *)
(* ===================================================================== *)

Inductive num : Type :=
  | Finite (r : R)
  | PInf
  | NInf
  | NaN.

Definition is_finite (x : num) : Prop :=
  match x with Finite _ => True | _ => False end.

(** [inf] or [NaN]: what NumPy prints for an undefined quotient. *)
Definition is_undefined (x : num) : Prop :=
  match x with Finite _ => False | _ => True end.

Definition inf_of_sign (positive : bool) : num :=
  if positive then PInf else NInf.

(** An infinity times (or divided by) a finite factor [r]. *)
Definition inf_times (positive : bool) (r : R) : num :=
  if Req_dec_T r 0 then NaN
  else if Rlt_dec 0 r then inf_of_sign positive
  else inf_of_sign (negb positive).

Definition num_opp (x : num) : num :=
  match x with
  | Finite r => Finite (- r)
  | PInf => NInf
  | NInf => PInf
  | NaN => NaN
  end.

Definition num_add (x y : num) : num :=
  match x, y with
  | NaN, _ | _, NaN => NaN
  | Finite a, Finite b => Finite (a + b)
  | PInf, NInf | NInf, PInf => NaN
  | PInf, _ | _, PInf => PInf
  | NInf, _ | _, NInf => NInf
  end.

Definition num_sub (x y : num) : num := num_add x (num_opp y).

Definition num_mul (x y : num) : num :=
  match x, y with
  | NaN, _ | _, NaN => NaN
  | Finite a, Finite b => Finite (a * b)
  | PInf, Finite r | Finite r, PInf => inf_times true r
  | NInf, Finite r | Finite r, NInf => inf_times false r
  | PInf, PInf | NInf, NInf => PInf
  | PInf, NInf | NInf, PInf => NInf
  end.

Definition num_div (x y : num) : num :=
  match x, y with
  | NaN, _ | _, NaN => NaN
  | Finite a, Finite b =>
      if Req_dec_T b 0 then
        (if Req_dec_T a 0 then NaN
         else if Rlt_dec 0 a then PInf else NInf)
      else Finite (a / b)
  | Finite _, (PInf | NInf) => Finite 0
  | PInf, Finite b => if Rlt_dec b 0 then NInf else PInf
  | NInf, Finite b => if Rlt_dec b 0 then PInf else NInf
  | (PInf | NInf), (PInf | NInf) => NaN
  end.

Definition num_abs (x : num) : num :=
  match x with
  | Finite r => Finite (Rabs r)
  | PInf | NInf => PInf
  | NaN => NaN
  end.

(** [x > y]; every comparison with [NaN] is false. *)
Definition num_gtb (x y : num) : bool :=
  match x, y with
  | NaN, _ | _, NaN => false
  | Finite a, Finite b => if Rlt_dec b a then true else false
  | PInf, PInf => false
  | PInf, _ => true
  | _, PInf => false
  | NInf, _ => false
  | _, NInf => true
  end.

Definition num_exp (x : num) : num :=
  match x with
  | Finite r => Finite (exp r)
  | PInf => PInf
  | NInf => Finite 0
  | NaN => NaN
  end.

(** [np.expm1]: [exp x - 1]. *)
Definition num_expm1 (x : num) : num :=
  match x with
  | Finite r => Finite (exp r - 1)
  | PInf => PInf
  | NInf => Finite (-1)
  | NaN => NaN
  end.

(** [np.sqrt]: [NaN] below zero. *)
Definition num_sqrt (x : num) : num :=
  match x with
  | Finite r => if Rlt_dec r 0 then NaN else Finite (sqrt r)
  | PInf => PInf
  | NInf => NaN
  | NaN => NaN
  end.

(** [x**n] and [np.power(x, n)] for a literal exponent [n]. *)
Fixpoint num_pow (x : num) (n : nat) : num :=
  match n with
  | O => Finite 1
  | S n' => num_mul x (num_pow x n')
  end.

Declare Scope num_scope.
Delimit Scope num_scope with num.
Bind Scope num_scope with num.
Infix "+" := num_add : num_scope.
Infix "-" := num_sub : num_scope.
Infix "*" := num_mul : num_scope.
Infix "/" := num_div : num_scope.
Notation "- x" := (num_opp x) : num_scope.
Infix ">?" := num_gtb (at level 70, no associativity) : num_scope.

(** [np.pi] *)
Definition np_pi : num := Finite PI.

(* ===================================================================== *)
(** ** Exceptions *)
(* ===================================================================== *)

Inductive exn : Type :=
  | IndexError
  | ValueError
  | OSError
  | FileExistsError
  | FileNotFoundError.

Inductive result (A : Type) : Type :=
  | Ok (a : A)
  | Raise (e : exn).
Arguments Ok {A} a.
Arguments Raise {A} e.

#[global] Instance result_ret : MRet result := fun A a => Ok a.
#[global] Instance result_bind : MBind result := fun A B f m =>
  match m with
  | Ok a => f a
  | Raise e => Raise e
  end.

(** [l[i]] for a Python sequence: a negative index counts from the end,
    an index out of range raises [IndexError]. *)
Definition py_index {A : Type} (l : list A) (i : Z) : result A :=
  let n := Z.of_nat (length l) in
  let j := if (i <? 0)%Z then (i + n)%Z else i in
  if ((0 <=? j)%Z && (j <? n)%Z)%bool then
    match l !! Z.to_nat j with
    | Some x => Ok x
    | None => Raise IndexError
    end
  else Raise IndexError.

(** [l[i]] inside [for i in range(n)]. *)
Definition getitem {A : Type} (l : list A) (i : nat) : result A :=
  py_index l (Z.of_nat i).

(** Python's builtin [sum]: a left fold from [0]. *)
Definition py_sum (l : list num) : num := fold_left num_add l (Finite 0).

(** [range(n)] *)
Definition range (n : nat) : list nat := seq 0 n.

(* ===================================================================== *)
(** ** Physical constants *)
(* ===================================================================== *)

Definition c     : num := Finite 2.99792458E+08.
Definition h     : num := Finite 6.62607004E-34.
Definition kb    : num := Finite 1.38064852E-23.
Definition amu   : num := Finite 1.66053904E-27.

(* ===================================================================== *)
(** ** Radiative quantities *)
(* ===================================================================== *)

Record LineData : Type := {
  nlev : nat;
  weight : list num;
  energy : list num;
  nrad : nat;
  irad : list Z;
  jrad : list Z;
  frequency : list num;
  A : list num;
  Ba : list num;
  Bs : list num;
  inverse_mass : num;
}.

Definition relative_error (a b : num) : num :=
  (Finite 2.0 * (a - b) / (a + b))%num.

Definition LTEpop (linedata : LineData) (temperature : num)
  : result (list num) :=
  pop ← mapM (fun i =>
           w ← getitem linedata.(weight) i;
           e ← getitem linedata.(energy) i;
           mret (w * num_exp (- e / (kb * temperature)))%num)
         (range linedata.(nlev));
  mret (map (fun p => (p / py_sum pop)%num) pop).

Definition lineEmissivity (linedata : LineData) (pop : list num)
  : result (list num) :=
  mapM (fun k =>
      i ← getitem linedata.(irad) k;
      j ← getitem linedata.(jrad) k;
      nu ← getitem linedata.(frequency) k;
      a ← getitem linedata.(A) k;
      pop_i ← py_index pop i;
      mret (h * nu / (Finite 4.0 * np_pi) * a * pop_i)%num)
    (range linedata.(nrad)).

Definition lineOpacity (linedata : LineData) (pop : list num)
  : result (list num) :=
  mapM (fun k =>
      i ← getitem linedata.(irad) k;
      j ← getitem linedata.(jrad) k;
      nu ← getitem linedata.(frequency) k;
      ba ← getitem linedata.(Ba) k;
      pop_j ← py_index pop j;
      bs ← getitem linedata.(Bs) k;
      pop_i ← py_index pop i;
      mret (h * nu / (Finite 4.0 * np_pi) * (ba * pop_j - bs * pop_i))%num)
    (range linedata.(nrad)).

(** Elementwise quotient of two arrays of one shape. *)
Definition array_div (xs ys : list num) : list num :=
  zip_with num_div xs ys.

Definition lineSource (linedata : LineData) (pop : list num)
  : result (list num) :=
  eta ← lineEmissivity linedata pop;
  chi ← lineOpacity linedata pop;
  mret (array_div eta chi).

Definition planck (temperature frequency : num) : num :=
  (Finite 2.0 * h / num_pow c 2 * num_pow frequency 3
   / num_expm1 (h * frequency / (kb * temperature)))%num.


Definition dnu (linedata : LineData) (k : Z) (temp vturb2 : num)
  : result num :=
  nu_k ← py_index linedata.(frequency) k;
  mret (nu_k * num_sqrt (Finite 2.0 * kb * temp / (amu * num_pow c 2)
                         * linedata.(inverse_mass) + vturb2))%num.


(* ===================================================================== *)
(** ** NumPy array helpers used by the exporter *)
(* ===================================================================== *)

(** The larger (smaller) of two values; [NaN] wins, as in [np.max]. *)
Definition num_max (x y : num) : num :=
  match x, y with
  | NaN, _ | _, NaN => NaN
  | _, _ => if (y >? x)%num then y else x
  end.

Definition num_min (x y : num) : num :=
  match x, y with
  | NaN, _ | _, NaN => NaN
  | _, _ => if (x >? y)%num then y else x
  end.

(** [np.max], [np.min]: a reduction without identity, so the empty array
    raises [ValueError]. *)
Definition np_max (l : list num) : result num :=
  match l with
  | [] => Raise ValueError
  | x :: l' => Ok (fold_left num_max l' x)
  end.

Definition np_min (l : list num) : result num :=
  match l with
  | [] => Raise ValueError
  | x :: l' => Ok (fold_left num_min l' x)
  end.

(** [np.mean]: sum over count; [NaN] (with a warning) on the empty array. *)
Definition np_mean (l : list num) : num :=
  (py_sum l / Finite (INR (length l)))%num.

(** [np.diff]: consecutive differences [l[i+1] - l[i]]. *)
Fixpoint np_diff (l : list num) : list num :=
  match l with
  | x :: (y :: _) as l' => (y - x)%num :: np_diff l'
  | _ => []
  end.

(** Replace the last element of a list, [y[-1] = v]. *)
Fixpoint set_last (l : list num) (v : num) : list num :=
  match l with
  | [] => []
  | [_] => [v]
  | x :: l' => x :: set_last l' v
  end.

(** [np.linspace(start, stop, n)] with the default [endpoint=True]:
    [i*step + start] for [step = (stop - start)/(n - 1)], the last sample
    set to [stop] itself; with a single sample the step is undefined and
    the sample is [0*(stop - start) + start].  (For a step equal to zero
    NumPy computes [i/(n - 1)*(stop - start)] instead, which is the same
    number here.) *)
Definition np_linspace (start stop : num) (n : nat) : list num :=
  let div := (n - 1)%nat in
  let delta := (stop - start)%num in
  let y := map (fun i => Finite (INR i)) (range n) in
  let y :=
    if (0 <? div)%nat then
      let step := (delta / Finite (INR div))%num in
      map (fun v => (v * step)%num) y
    else map (fun v => (v * delta)%num) y in
  let y := map (fun v => (v + start)%num) y in
  if (1 <? n)%nat then set_last y stop else y.

(** [imI[:,f]]: column [f] of a two-dimensional array given by its rows.
    An empty list of rows is a one-dimensional empty array, which has no
    second axis to index. *)
Definition column (rows : list (list num)) (f : nat) : result (list num) :=
  match rows with
  | [] => Raise IndexError
  | _ => mapM (fun row => getitem row f) rows
  end.

(** A two-dimensional array: its shape and its rows. *)
Record array2 : Type := {
  shape2 : nat * nat;
  rows2 : list (list num);
}.

(** [dst[...] = src] for a destination of shape [dst_shape]: NumPy
    broadcasts the source, each source axis must have the destination's
    length or length one, else [ValueError]. *)
Definition broadcast_to (dst_shape : nat * nat) (src : array2)
  : result array2 :=
  let '(sr, sc) := src.(shape2) in
  let '(dr, dc) := dst_shape in
  if (((sr =? dr)%nat || (sr =? 1)%nat) && ((sc =? dc)%nat || (sc =? 1)%nat))%bool
  then
    Ok {| shape2 := dst_shape;
          rows2 :=
            map (fun i =>
                   let row := nth (if (sr =? dr)%nat then i else O) src.(rows2) [] in
                   map (fun j => nth (if (sc =? dc)%nat then j else O) row NaN)
                       (range dc))
                (range dr) |}
  else Raise ValueError.

(* ===================================================================== *)
(** ** The model object, the FITS file and the outside world *)
(* ===================================================================== *)

Record Image : Type := {
  ImX : list num;
  ImY : list num;
  I : list (list num);
}.

Record Parameters : Type := {
  model_name : string;
  nfreqs : nat;
}.

(** [model.radiation.frequencies.nu] is kept as the field [nu]. *)
Record Model : Type := {
  images : list Image;
  parameters : Parameters;
  nu : list (list num);
}.

Record Header : Type := {
  NAXIS : nat;
  NAXIS1 : nat;
  NAXIS2 : nat;
  NAXIS3 : nat;
  CENTFREQ : num;
  DPIX_X : num;
  DPIX_Y : num;
  DFREQ : option num;
  IM_UNIT : string;
}.

(** The image cube: one two-dimensional slice per frequency bin. *)
Record Cube : Type := {
  cube_shape : nat * nat * nat;
  slices : list array2;
}.

Inductive content : Type :=
  | Fits (hdr : Header) (data : Cube)
  | Bytes (s : string).

Inductive node : Type :=
  | Directory
  | File (payload : content).

Record world : Type := {
  fs : gmap string node;
  stdout : list string;
}.

Definition IO (A : Type) : Type := world -> result A * world.

#[global] Instance IO_ret : MRet IO := fun A a w => (Ok a, w).
#[global] Instance IO_bind : MBind IO := fun A B f m w =>
  match m w with
  | (Ok a, w') => f a w'
  | (Raise e, w') => (Raise e, w')
  end.

(** A computation that may raise but touches nothing. *)
Definition lift {A : Type} (r : result A) : IO A := fun w => (r, w).

Definition print (line : string) : IO () := fun w =>
  (Ok (), {| fs := w.(fs); stdout := w.(stdout) ++ [line] |}).

Definition os_path_exists (path : string) : IO bool := fun w =>
  (Ok (bool_decide (is_Some (w.(fs) !! path))), w).

Definition os_path_isfile (path : string) : IO bool := fun w =>
  (Ok (match w.(fs) !! path with Some (File _) => true | _ => false end), w).

(** [os.makedirs]: refuses a path that exists. *)
Definition os_makedirs (path : string) : IO () := fun w =>
  match w.(fs) !! path with
  | Some _ => (Raise FileExistsError, w)
  | None => (Ok (), {| fs := <[path := Directory]> w.(fs); stdout := w.(stdout) |})
  end.

(** [os.remove]: removes a regular file, nothing else. *)
Definition os_remove (path : string) : IO () := fun w =>
  match w.(fs) !! path with
  | Some (File _) =>
      (Ok (), {| fs := delete path w.(fs); stdout := w.(stdout) |})
  | _ => (Raise FileNotFoundError, w)
  end.

(** [fits.writeto] with its default [overwrite=False]: refuses a path that
    exists with an [OSError].  The file holds the data and the header as
    they are handed over. *)
Definition fits_writeto (path : string) (data : Cube) (hdr : Header) : IO () :=
  fun w =>
  match w.(fs) !! path with
  | Some _ => (Raise OSError, w)
  | None =>
      (Ok (), {| fs := <[path := File (Fits hdr data)]> w.(fs);
                 stdout := w.(stdout) |})
  end.

(** A floating-point header card: [astropy] refuses [NaN] and [inf]. *)
Definition header_float (v : num) : result num :=
  match v with
  | Finite _ => Ok v
  | _ => Raise ValueError
  end.

Definition header_float_opt (v : option num) : result (option num) :=
  match v with
  | Some x => x' ← header_float x; mret (Some x')
  | None => Ok None
  end.

(** [not filename]: [None] and the empty string are both falsy. *)
Definition falsy (filename : option string) : bool :=
  match filename with
  | None => true
  | Some s => bool_decide (s = EmptyString)
  end.

(* ===================================================================== *)
(** ** The exporter *)
(* ===================================================================== *)

Section Exporter.

(** [os.path.abspath] and [os.path.dirname], functions of the path for a
    fixed working directory. *)
Variable os_path_abspath : string -> string.
Variable os_path_dirname : string -> string.

(** [scipy.interpolate]: from the interpolation method, the scattered
    points (their x and y coordinates) and the values there, either an
    exception or the interpolant, a function of the point asked for. *)
Variable interpolator :
  string -> list num -> list num -> list num -> result (num -> num -> num).

(** [griddata((imx, imy), values, (xs[None,:], ys[:,None]), method)]:
    the two coordinate arrays broadcast to the shape
    [(len(ys), len(xs))], and entry [[a][b]] of the answer is the
    interpolant at the point [(xs[b], ys[a])]. *)
Definition griddata (imx imy values xs ys : list num) (method : string)
  : result array2 :=
  ip ← interpolator method imx imy values;
  mret {| shape2 := (length ys, length xs);
          rows2 := map (fun y => map (fun x => ip x y) xs) ys |}.

(** Lines 154-163: the default file name. *)
Definition resolve_filename (model : Model) (filename : option string)
  : IO string :=
  if falsy filename then
    let im_dir :=
      os_path_dirname (os_path_abspath model.(parameters).(model_name))
      +:+ "/images/" in
    present ← os_path_exists im_dir;
    _ ← (if negb present then
           _ ← os_makedirs im_dir;
           print ("Created image directory: " +:+ im_dir)
         else mret ());
    mret (im_dir +:+ "image.fits")
  else mret (default EmptyString filename).

(** Lines 177-179: the image boundaries on one axis. *)
Definition boundaries (coords : list num) (zoom : num)
  : result (num * num) :=
  lo ← np_min coords;
  hi ← np_max coords;
  mret ((lo / zoom)%num, (hi / zoom)%num).

(** Lines 191-197: the frequency spacing, and whether the warning is
    printed. *)
Definition frequency_spacing (freqs : list num)
  : result (option num * bool) :=
  let dfreqs := np_diff freqs in
  dmax ← np_max dfreqs;
  dmin ← np_min dfreqs;
  if (num_abs (relative_error dmax dmin) >? Finite 1.0e-9)%num
  then mret (None, true)
  else mret (Some (np_mean dfreqs), false).

(** Lines 200-203: one slice per frequency bin. *)
Definition interpolate_cube (imx imy : list num) (imI : list (list num))
    (xs ys : list num) (nfreqs npix_x npix_y : nat) (method : string)
  : result (list array2) :=
  mapM (fun f =>
      values ← column imI f;
      slice ← griddata imx imy values xs ys method;
      broadcast_to (npix_x, npix_y) slice)
    (range nfreqs).

Definition save_fits (model : Model) (filename : option string)
    (image_nr : Z) (zoom : num) (npix_x npix_y : nat) (method : string)
  : IO () :=
  if (length model.(images) <? 1)%nat then
    print "No images in model."
  else
    filename ← resolve_filename model filename;
    isfile ← os_path_isfile filename;
    _ ← (if isfile : bool then os_remove filename else mret ());
    im ← lift (py_index model.(images) image_nr);
    let imx := im.(ImX) in
    let imy := im.(ImY) in
    let imI := im.(I) in
    let nfreqs := model.(parameters).(nfreqs) in
    '(x_min, x_max) ← lift (boundaries imx zoom);
    '(y_min, y_max) ← lift (boundaries imy zoom);
    let xs := np_linspace x_min x_max npix_x in
    let ys := np_linspace y_min y_max npix_y in
    freqs ← lift (py_index model.(nu) 0);
    let f_ij := np_mean freqs in
    let dpix_x := np_mean (np_diff xs) in
    let dpix_y := np_mean (np_diff ys) in
    '(dfreq, warn) ← lift (frequency_spacing freqs);
    _ ← (if warn : bool
         then print "WARNING: No regularly spaced frequency bins!"
         else mret ());
    zs ← lift (interpolate_cube imx imy imI xs ys nfreqs npix_x npix_y method);
    centfreq ← lift (header_float f_ij);
    dpix_x ← lift (header_float dpix_x);
    dpix_y ← lift (header_float dpix_y);
    dfreq ← lift (header_float_opt dfreq);
    let hdr :=
      {| NAXIS := 3;
         NAXIS1 := nfreqs;
         NAXIS2 := npix_x;
         NAXIS3 := npix_y;
         CENTFREQ := centfreq;
         DPIX_X := dpix_x;
         DPIX_Y := dpix_y;
         DFREQ := dfreq;
         IM_UNIT := "W m^-2 Hz^-1 ster^-1" |} in
    _ ← fits_writeto filename
          {| cube_shape := (nfreqs, npix_x, npix_y); slices := zs |} hdr;
    print ("Written file to: " +:+ filename).

End Exporter.

(* ===================================================================== *)
(** ** Specification vocabulary *)
(* ===================================================================== *)

Definition to_R (x : num) : R :=
  match x with Finite r => r | _ => 0 end.

(** The invariant of a [LineData] record: array lengths and level indices. *)
Record LineData_wf (ld : LineData) : Prop := {
  wf_weight : length ld.(weight) = ld.(nlev);
  wf_energy : length ld.(energy) = ld.(nlev);
  wf_irad : length ld.(irad) = ld.(nrad);
  wf_jrad : length ld.(jrad) = ld.(nrad);
  wf_frequency : length ld.(frequency) = ld.(nrad);
  wf_A : length ld.(A) = ld.(nrad);
  wf_Ba : length ld.(Ba) = ld.(nrad);
  wf_Bs : length ld.(Bs) = ld.(nrad);
  wf_irad_level : Forall (fun i => (0 <= i < Z.of_nat ld.(nlev))%Z) ld.(irad);
  wf_jrad_level : Forall (fun j => (0 <= j < Z.of_nat ld.(nlev))%Z) ld.(jrad);
}.

(** Every entry of the per-transition arrays is a finite number. *)
Record LineData_finite (ld : LineData) : Prop := {
  fin_frequency : Forall is_finite ld.(frequency);
  fin_A : Forall is_finite ld.(A);
  fin_Ba : Forall is_finite ld.(Ba);
  fin_Bs : Forall is_finite ld.(Bs);
}.

(** The value the loop body stores at [eta[k]], resp. [chi[k]]. *)
Definition emissivity_at (ld : LineData) (pop : list num) (k : nat) : num :=
  let i := nth k ld.(irad) 0%Z in
  (h * nth k ld.(frequency) NaN / (Finite 4.0 * np_pi)
   * nth k ld.(A) NaN * nth (Z.to_nat i) pop NaN)%num.

Definition opacity_at (ld : LineData) (pop : list num) (k : nat) : num :=
  let i := nth k ld.(irad) 0%Z in
  let j := nth k ld.(jrad) 0%Z in
  (h * nth k ld.(frequency) NaN / (Finite 4.0 * np_pi)
   * (nth k ld.(Ba) NaN * nth (Z.to_nat j) pop NaN
      - nth k ld.(Bs) NaN * nth (Z.to_nat i) pop NaN))%num.

(** A two-level system with all of its population in the upper level. *)
Definition inverted_linedata : LineData :=
  {| nlev := 2;
     weight := [Finite 1; Finite 3];
     energy := [Finite 0; Finite 1];
     nrad := 1;
     irad := [1%Z];
     jrad := [0%Z];
     frequency := [Finite 1];
     A := [Finite 1];
     Ba := [Finite 1];
     Bs := [Finite 1];
     inverse_mass := Finite 1 |}.

Definition inverted_pop : list num := [Finite 0; Finite 1].


(** The sum of a list of reals, folded as Python's [sum] does. *)
Definition Rsum (l : list R) : R := fold_left Rplus l 0.

(** [weight[i] * exp(-energy[i]/(kb*T))] for finite entries. *)
Definition boltzmann (ld : LineData) (T : R) (i : nat) : R :=
  to_R (nth i ld.(weight) NaN)
  * exp (- to_R (nth i ld.(energy) NaN) / (to_R kb * T)).

Definition partition_function (ld : LineData) (T : R) : R :=
  Rsum (map (boltzmann ld T) (range ld.(nlev))).


(** Every statistical weight and level energy is a finite number. *)
Definition levels_finite (ld : LineData) : Prop :=
  Forall is_finite ld.(weight) /\ Forall is_finite ld.(energy).

(** No statistical weight is negative and one at least is positive. *)
Definition weights_positive (ld : LineData) : Prop :=
  Forall (fun w => 0 <= to_R w) ld.(weight) /\
  Exists (fun w => 0 < to_R w) ld.(weight).


(* --------------------------------------------------------------------- *)
(** *** Vocabulary for the exporter *)
(* --------------------------------------------------------------------- *)

Section ExporterVocabulary.

Variable os_path_abspath : string -> string.
Variable os_path_dirname : string -> string.

(** The image directory next to the model file. *)
Definition images_dir (model : Model) : string :=
  os_path_dirname (os_path_abspath model.(parameters).(model_name))
  +:+ "/images/".

(** The path the cube is written to. *)
Definition target_path (model : Model) (filename : option string) : string :=
  if falsy filename then images_dir model +:+ "image.fits"
  else default EmptyString filename.

(** The world once the file name is resolved: the image directory has
    been created, and reported, if a default name was asked for and the
    directory was missing. *)
Definition resolved_world (model : Model) (filename : option string)
    (w : world) : world :=
  if falsy filename then
    match w.(fs) !! images_dir model with
    | Some _ => w
    | None =>
        {| fs := <[images_dir model := Directory]> w.(fs);
           stdout := w.(stdout)
                     ++ ["Created image directory: " +:+ images_dir model] |}
    end
  else w.

End ExporterVocabulary.

(** The world once a regular file at [path] has been removed. *)
Definition cleared_world (path : string) (w : world) : world :=
  match w.(fs) !! path with
  | Some (File _) => {| fs := delete path w.(fs); stdout := w.(stdout) |}
  | _ => w
  end.

Definition warning_lines (warn : bool) : list string :=
  if warn then ["WARNING: No regularly spaced frequency bins!"] else [].

(** The samples of [np.linspace] between finite ends, before the last one
    is overwritten. *)
Definition linspace_sample (a b : R) (n i : nat) : R :=
  INR i * ((b - a) / INR (n - 1)) + a.


(** What is claimed of the bounding box on one axis: its extent is the
    raw extent over the zoom, and it has the centre of the raw box. *)
Definition bounding_box_centered (coords : list num) (zoom : R) : Prop :=
  exists lo hi lo' hi' : R,
    np_min coords = Ok (Finite lo) /\
    np_max coords = Ok (Finite hi) /\
    boundaries coords (Finite zoom) = Ok (Finite lo', Finite hi') /\
    hi' - lo' = (hi - lo) / zoom /\
    (lo' + hi') / 2 = (lo + hi) / 2.

(** The slice stored for one frequency bin on a square grid of [n] by [n]
    pixels: entry [[a][b]] is the interpolant at [(xs[b], ys[a])]. *)
Definition grid_slice (ip : num -> num -> num) (xs ys : list num) (n : nat)
  : array2 :=
  {| shape2 := (n, n);
     rows2 :=
       map (fun a => map (fun b => ip (nth b xs NaN) (nth a ys NaN)) (range n))
           (range n) |}.

(** Frequency spacing that is not uniform within the relative tolerance
    [1e-9]: the largest and the smallest step differ by more than the
    tolerance times their mean. *)
Definition spacing_irregular (dmax dmin : R) : Prop :=
  Rabs (dmax - dmin) > 1.0e-9 * Rabs ((dmax + dmin) / 2).

(** Nearest-neighbour interpolation of scattered samples, first sample
    winning a tie; the other methods of [scipy] are not modelled. *)
Definition distance2 (px py x y : num) : num :=
  ((px - x) * (px - x) + (py - y) * (py - y))%num.

Fixpoint nearest_value (pts : list (num * num * num)) (best_d best_v : num)
    (x y : num) : num :=
  match pts with
  | [] => best_v
  | (px, py, v) :: rest =>
      let d := distance2 px py x y in
      if (best_d >? d)%num then nearest_value rest d v x y
      else nearest_value rest best_d best_v x y
  end.

Definition nearest_interpolator (method : string) (imx imy values : list num)
  : result (num -> num -> num) :=
  if bool_decide (method = "nearest") then
    match zip (zip imx imy) values with
    | (px, py, v) :: rest =>
        if ((length imx =? length imy)%nat
            && (length imx =? length values)%nat)%bool
        then Ok (fun x y => nearest_value rest (distance2 px py x y) v x y)
        else Raise ValueError
    | [] => Raise ValueError
    end
  else Raise ValueError.

Section ExportReady.

Variable interpolator :
  string -> list num -> list num -> list num -> result (num -> num -> num).

(** What one export call needs in order to complete: the image asked for
    exists and has finite coordinates, the zoom is not zero, the grid is
    square with at least two pixels a side, the frequency array has at
    least two finite bins, and every frequency bin of the image can be
    interpolated. *)
Record export_ready (model : Model) (image_nr : Z) (zoom : R)
    (npix_x npix_y : nat) (method : string) (im : Image) (freqs : list num)
  : Prop := {
  ready_image : py_index model.(images) image_nr = Ok im;
  ready_imx : im.(ImX) <> [] /\ Forall is_finite im.(ImX);
  ready_imy : im.(ImY) <> [] /\ Forall is_finite im.(ImY);
  ready_zoom : zoom <> 0;
  ready_npix : (2 <= npix_x)%nat /\ npix_y = npix_x;
  ready_freqs : py_index model.(nu) 0 = Ok freqs;
  ready_bins : (2 <= length freqs)%nat /\ Forall is_finite freqs;
  ready_interp :
    forall f : nat, (f < model.(parameters).(nfreqs))%nat ->
      exists values ip,
        column im.(I) f = Ok values /\
        interpolator method im.(ImX) im.(ImY) values = Ok ip;
}.

(** The interpolant of frequency bin [f], when there is one. *)
Definition bin_interpolant (method : string) (im : Image) (f : nat)
  : num -> num -> num :=
  match column im.(I) f with
  | Ok values =>
      match interpolator method im.(ImX) im.(ImY) values with
      | Ok ip => ip
      | Raise _ => fun _ _ => NaN
      end
  | Raise _ => fun _ _ => NaN
  end.

End ExportReady.

(** The header written for given frequencies, grid and frequency
    spacing. *)
Definition export_header (nfreqs npix_x npix_y : nat) (freqs xs ys : list num)
    (dfreq : option num) : Header :=
  {| NAXIS := 3;
     NAXIS1 := nfreqs;
     NAXIS2 := npix_x;
     NAXIS3 := npix_y;
     CENTFREQ := np_mean freqs;
     DPIX_X := np_mean (np_diff xs);
     DPIX_Y := np_mean (np_diff ys);
     DFREQ := dfreq;
     IM_UNIT := "W m^-2 Hz^-1 ster^-1" |}.

(** The cube written on a square grid of [n] by [n] pixels. *)
Definition export_cube
    (interpolator :
       string -> list num -> list num -> list num ->
       result (num -> num -> num))
    (method : string) (im : Image) (xs ys : list num) (nfreqs n : nat)
  : Cube :=
  {| cube_shape := (nfreqs, n, n);
     slices :=
       map (fun f => grid_slice (bin_interpolant interpolator method im f)
                                xs ys n)
           (range nfreqs) |}.

(** The spacing is taken as uniform: no warning, the mean step stored. *)
Definition classified_uniform (freqs : list num) : Prop :=
  frequency_spacing freqs = Ok (Some (np_mean (np_diff freqs)), false).

(** What is claimed of the regularity check when the extreme steps sum to
    zero: the relative error is undefined and the spacing is not taken as
    uniform. *)
Definition zero_sum_not_uniform (freqs : list num) : Prop :=
  forall dmax dmin : R,
    np_max (np_diff freqs) = Ok (Finite dmax) ->
    np_min (np_diff freqs) = Ok (Finite dmin) ->
    dmax + dmin = 0 ->
    is_undefined (relative_error (Finite dmax) (Finite dmin)) /\
    ~ classified_uniform freqs.

(* --------------------------------------------------------------------- *)
(** *** A small model to run the exporter on *)
(* --------------------------------------------------------------------- *)

(** Two sample points and three frequency bins, spaced [1.0, 2.0, 3.01]. *)
Definition example_image : Image :=
  {| ImX := [Finite (-1); Finite 1];
     ImY := [Finite (-2); Finite 2];
     I := [[Finite 1; Finite 2; Finite 3];
           [Finite 4; Finite 5; Finite 6]] |}.

Definition example_freqs : list num := [Finite 1.0; Finite 2.0; Finite 3.01].

Definition example_model : Model :=
  {| images := [example_image];
     parameters := {| model_name := "model.hdf5"; nfreqs := 3 |};
     nu := [example_freqs; example_freqs] |}.

(** The same model without images. *)
Definition empty_model : Model :=
  {| images := [];
     parameters := {| model_name := "model.hdf5"; nfreqs := 3 |};
     nu := [example_freqs; example_freqs] |}.

(** Paths for a process whose working directory is [/work]. *)
Definition example_abspath (path : string) : string := "/work/" +:+ path.
Definition example_dirname (path : string) : string := "/work".

(** A world with an older file at the default target path. *)
Definition example_world : world :=
  {| fs := {[ "/work/images/" := Directory;
              "/work/images/image.fits" := File (Bytes "old") ]};
     stdout := [] |}.


(* ===================================================================== *)
(** ** The timer *)
(* ===================================================================== *)

(** [class Timer].  The clock [perf_counter()] is outside the program:
    its reading is an argument of the method that asks for it.  A method
    returns the object as it has left it, also when it raises. *)
Record Timer : Type := {
  name : string;
  starts : list num;
  stops : list num;
  intervals : list num;
  total : num;
}.

(** [Timer.__init__] *)
Definition Timer_init (name : string) : Timer :=
  {| name := name;
     starts := [];
     stops := [];
     intervals := [];
     total := Finite 0.0 |}.

(** [Timer.start] *)
Definition Timer_start (self : Timer) (perf_counter : num) : Timer :=
  {| name := self.(name);
     starts := self.(starts) ++ [perf_counter];
     stops := self.(stops);
     intervals := self.(intervals);
     total := self.(total) |}.

(** [Timer.stop] *)
Definition Timer_stop (self : Timer) (perf_counter : num)
  : result () * Timer :=
  let self1 :=
    {| name := self.(name);
       starts := self.(starts);
       stops := self.(stops) ++ [perf_counter];
       intervals := self.(intervals);
       total := self.(total) |} in
  match (stop_last ← py_index self1.(stops) (-1);
         start_last ← py_index self1.(starts) (-1);
         mret (stop_last - start_last)%num) with
  | Raise e => (Raise e, self1)
  | Ok interval =>
      let self2 :=
        {| name := self1.(name);
           starts := self1.(starts);
           stops := self1.(stops);
           intervals := self1.(intervals) ++ [interval];
           total := self1.(total) |} in
      match py_index self2.(intervals) (-1) with
      | Raise e => (Raise e, self2)
      | Ok interval_last =>
          (Ok (),
           {| name := self2.(name);
              starts := self2.(starts);
              stops := self2.(stops);
              intervals := self2.(intervals);
              total := (self2.(total) + interval_last)%num |})
      end
  end.

(** A call of one of the two methods, with the reading of the clock. *)
Inductive Timer_call : Type :=
  | Start (perf_counter : num)
  | Stop (perf_counter : num).

Definition reading (call : Timer_call) : num :=
  match call with Start t => t | Stop t => t end.

(** A sequence of calls on one timer, stopping at the first exception. *)
Fixpoint Timer_calls (self : Timer) (calls : list Timer_call)
  : result () * Timer :=
  match calls with
  | [] => (Ok (), self)
  | Start t :: rest => Timer_calls (Timer_start self t) rest
  | Stop t :: rest =>
      match Timer_stop self t with
      | (Ok _, self') => Timer_calls self' rest
      | (Raise e, self') => (Raise e, self')
      end
  end.

(** Clock readings that are finite and never go back. *)
Fixpoint monotonic_from (t0 : R) (calls : list Timer_call) : Prop :=
  match calls with
  | [] => True
  | call :: rest =>
      exists t : R, reading call = Finite t /\ t0 <= t /\ monotonic_from t rest
  end.

(** A finite number that is not negative. *)
Definition is_nonneg (x : num) : Prop :=
  match x with Finite r => 0 <= r | _ => False end.

(** A finite number that is at most [t]. *)
Definition is_at_most (t : R) (x : num) : Prop :=
  match x with Finite r => r <= t | _ => False end.

(* ===================================================================== *)
(** ** More vocabulary for the exporter *)
(* ===================================================================== *)

(** The two ways a run can end, seen from the file system [base] it had
    once the older file was removed: an exception and [base] untouched, or
    the new file written at [path], which was free in [base]. *)
Definition export_outcome (path : string) (base : world)
    (res : result () * world) : Prop :=
  (exists e, fst res = Raise e /\ (snd res).(fs) = base.(fs)) \/
  (fst res = Ok () /\ base.(fs) !! path = None /\
   exists hdr cube,
     (snd res).(fs) = <[path := File (Fits hdr cube)]> base.(fs)).

(** Consecutive differences of a list of reals. *)
Fixpoint Rdiff (l : list R) : list R :=
  match l with
  | x :: (y :: _) as l' => (y - x) :: Rdiff l'
  | _ => []
  end.

(** Frequencies in arithmetic progression: [n] bins from [f0] in steps
    of [d]. *)
Definition uniform_freqs (f0 d : R) (n : nat) : list num :=
  map (fun i => Finite (f0 + INR i * d)) (range n).

(** The example model with a single frequency bin. *)
Definition single_bin_model : Model :=
  {| images := [example_image];
     parameters := {| model_name := "model.hdf5"; nfreqs := 1 |};
     nu := [[Finite 1.0]; [Finite 1.0]] |}.

(** A model whose only image has no sample points. *)
Definition no_samples_image : Image := {| ImX := []; ImY := []; I := [] |}.

Definition no_samples_model : Model :=
  {| images := [no_samples_image];
     parameters := {| model_name := "model.hdf5"; nfreqs := 3 |};
     nu := [example_freqs] |}.

(* ===================================================================== *)
(** ** More vocabulary for the radiative quantities *)
(* ===================================================================== *)

(** The same line data with other lower-level indices. *)
Definition with_jrad (jrad' : list Z) (ld : LineData) : LineData :=
  {| nlev := ld.(nlev);
     weight := ld.(weight);
     energy := ld.(energy);
     nrad := ld.(nrad);
     irad := ld.(irad);
     jrad := jrad';
     frequency := ld.(frequency);
     A := ld.(A);
     Ba := ld.(Ba);
     Bs := ld.(Bs);
     inverse_mass := ld.(inverse_mass) |}.


(** The same line data with every statistical weight multiplied by [s]. *)
Definition scale_weight (s : R) (ld : LineData) : LineData :=
  {| nlev := ld.(nlev);
     weight := map (fun g => (Finite s * g)%num) ld.(weight);
     energy := ld.(energy);
     nrad := ld.(nrad);
     irad := ld.(irad);
     jrad := ld.(jrad);
     frequency := ld.(frequency);
     A := ld.(A);
     Ba := ld.(Ba);
     Bs := ld.(Bs);
     inverse_mass := ld.(inverse_mass) |}.

(** The radicand of the Doppler width for finite arguments. *)
Definition doppler_radicand (T m v : R) : R :=
  2.0 * to_R kb * T / (to_R amu * (to_R c * (to_R c * 1))) * m + v.

(** Two levels declared, one statistical weight given. *)
Definition short_weight_linedata : LineData :=
  {| nlev := 2;
     weight := [Finite 1];
     energy := [Finite 0; Finite 1];
     nrad := 0;
     irad := [];
     jrad := [];
     frequency := [];
     A := [];
     Ba := [];
     Bs := [];
     inverse_mass := Finite 1 |}.
(* ===================================================================== *)
(** ** Exceptions and sequences: basic facts *)
(* ===================================================================== *)

Lemma bind_Ok {A B : Type} (a : A) (f : A -> result B) :
  (Ok a ≫= f) = f a.
Proof. reflexivity. Qed.

Lemma bind_Raise {A B : Type} (e : exn) (f : A -> result B) :
  (Raise e ≫= f) = Raise e.
Proof. reflexivity. Qed.

Lemma mapM_nil {A B : Type} (f : A -> result B) :
  mapM f [] = Ok [].
Proof. reflexivity. Qed.

Lemma mapM_cons {A B : Type} (f : A -> result B) (x : A) (l : list A) :
  mapM f (x :: l) = (y ← f x; k ← mapM f l; mret (y :: k)).
Proof. reflexivity. Qed.

(** A loop whose body succeeds at every index builds the whole array. *)
Lemma mapM_Ok_map {A B : Type} (f : A -> result B) (g : A -> B) (l : list A) :
  (forall x, In x l -> f x = Ok (g x)) -> mapM f l = Ok (map g l).
Proof.
  induction l as [|x l IH]; intros Hf.
  - reflexivity.
  - rewrite mapM_cons, (Hf x (or_introl eq_refl)), bind_Ok.
    rewrite IH by (intros y Hy; apply Hf; right; exact Hy).
    reflexivity.
Qed.

(** A loop that stops with an exception at its first index. *)
Lemma mapM_Raise_head {A B : Type} (f : A -> result B) (x : A) (l : list A)
    (e : exn) :
  f x = Raise e -> mapM f (x :: l) = Raise e.
Proof. intros Hx. rewrite mapM_cons, Hx. reflexivity. Qed.

Lemma py_index_nonneg {A : Type} (l : list A) (i : Z) (d : A) :
  (0 <= i < Z.of_nat (length l))%Z ->
  py_index l i = Ok (nth (Z.to_nat i) l d).
Proof.
  intros Hi. unfold py_index.
  destruct (Z.ltb_spec i 0) as [Hneg|_]; [lia|].
  destruct (Z.leb_spec 0 i) as [_|Hneg]; [|lia].
  destruct (Z.ltb_spec i (Z.of_nat (length l))) as [_|Hbig]; [|lia].
  simpl.
  destruct (l !! Z.to_nat i) as [x|] eqn:Hl.
  - f_equal. symmetry. apply nth_lookup_Some with (d := d) in Hl. exact Hl.
  - apply lookup_ge_None in Hl. lia.
Qed.

Lemma getitem_lt {A : Type} (l : list A) (i : nat) (d : A) :
  (i < length l)%nat -> getitem l i = Ok (nth i l d).
Proof.
  intros Hi. unfold getitem.
  rewrite (py_index_nonneg l (Z.of_nat i) d) by lia.
  rewrite Nat2Z.id. reflexivity.
Qed.

Lemma getitem_ge {A : Type} (l : list A) (i : nat) :
  (length l <= i)%nat -> getitem l i = Raise IndexError.
Proof.
  intros Hi. unfold getitem, py_index.
  destruct (Z.ltb_spec (Z.of_nat i) 0) as [Hneg|_]; [lia|].
  destruct (Z.leb_spec 0 (Z.of_nat i)) as [_|Hneg]; [|lia].
  destruct (Z.ltb_spec (Z.of_nat i) (Z.of_nat (length l))) as [Hlt|_]; [lia|].
  reflexivity.
Qed.

(** The last element, [l[-1]]. *)
Lemma py_index_last {A : Type} (l : list A) (x : A) :
  py_index (l ++ [x]) (-1) = Ok x.
Proof.
  unfold py_index. rewrite length_app. simpl length.
  replace (-1 <? 0)%Z with true by reflexivity.
  destruct (Z.leb_spec 0 (-1 + Z.of_nat (length l + 1))) as [_|Hneg]; [|lia].
  destruct (Z.ltb_spec (-1 + Z.of_nat (length l + 1))
              (Z.of_nat (length l + 1))) as [_|Hbig]; [|lia].
  simpl.
  replace (Z.to_nat (-1 + Z.of_nat (length l + 1))) with (length l) by lia.
  rewrite list_lookup_middle by reflexivity. reflexivity.
Qed.

Lemma in_range (n k : nat) : In k (range n) <-> (k < n)%nat.
Proof. unfold range. rewrite in_seq. lia. Qed.

Lemma length_range (n : nat) : length (range n) = n.
Proof. unfold range. apply length_seq. Qed.

Lemma lookup_map_range {B : Type} (g : nat -> B) (n k : nat) :
  (k < n)%nat -> map g (range n) !! k = Some (g k).
Proof.
  intros Hk. unfold range.
  change (map g (seq 0 n)) with (g <$> seq 0 n).
  rewrite list_lookup_fmap, lookup_seq_lt by exact Hk. reflexivity.
Qed.

Lemma nth_lookup_eq {B : Type} (l : list B) (k : nat) (x d : B) :
  l !! k = Some x -> nth k l d = x.
Proof. intros Hl. apply nth_lookup_Some with (d := d) in Hl. exact Hl. Qed.

(* ===================================================================== *)
(** ** Line emissivity, opacity and source function *)
(* ===================================================================== *)

Lemma level_index_valid (l : list Z) (n k : nat) :
  Forall (fun i => (0 <= i < Z.of_nat n)%Z) l -> (k < length l)%nat ->
  (0 <= nth k l 0%Z < Z.of_nat n)%Z.
Proof.
  intros Hall Hk.
  destruct (l !! k) as [i|] eqn:Hl.
  - rewrite (nth_lookup_eq l k i 0%Z Hl).
    exact (proj1 (Forall_lookup _ l) Hall k i Hl).
  - apply lookup_ge_None in Hl. lia.
Qed.

Lemma lineEmissivity_eq (ld : LineData) (pop : list num) :
  LineData_wf ld -> length pop = ld.(nlev) ->
  lineEmissivity ld pop = Ok (map (emissivity_at ld pop) (range ld.(nrad))).
Proof.
  intros Hwf Hpop. unfold lineEmissivity.
  apply mapM_Ok_map. intros k Hk. apply in_range in Hk.
  destruct Hwf.
  rewrite (getitem_lt ld.(irad) k 0%Z) by lia. rewrite bind_Ok.
  rewrite (getitem_lt ld.(jrad) k 0%Z) by lia. rewrite bind_Ok.
  rewrite (getitem_lt ld.(frequency) k NaN) by lia. rewrite bind_Ok.
  rewrite (getitem_lt ld.(A) k NaN) by lia. rewrite bind_Ok.
  rewrite (py_index_nonneg pop _ NaN).
  - reflexivity.
  - rewrite Hpop. apply level_index_valid; [assumption | lia].
Qed.

Lemma lineOpacity_eq (ld : LineData) (pop : list num) :
  LineData_wf ld -> length pop = ld.(nlev) ->
  lineOpacity ld pop = Ok (map (opacity_at ld pop) (range ld.(nrad))).
Proof.
  intros Hwf Hpop. unfold lineOpacity.
  apply mapM_Ok_map. intros k Hk. apply in_range in Hk.
  destruct Hwf.
  rewrite (getitem_lt ld.(irad) k 0%Z) by lia. rewrite bind_Ok.
  rewrite (getitem_lt ld.(jrad) k 0%Z) by lia. rewrite bind_Ok.
  rewrite (getitem_lt ld.(frequency) k NaN) by lia. rewrite bind_Ok.
  rewrite (getitem_lt ld.(Ba) k NaN) by lia. rewrite bind_Ok.
  rewrite (py_index_nonneg pop (nth k ld.(jrad) 0%Z) NaN)
    by (rewrite Hpop; apply level_index_valid; [assumption | lia]).
  rewrite bind_Ok.
  rewrite (getitem_lt ld.(Bs) k NaN) by lia. rewrite bind_Ok.
  rewrite (py_index_nonneg pop (nth k ld.(irad) 0%Z) NaN)
    by (rewrite Hpop; apply level_index_valid; [assumption | lia]).
  reflexivity.
Qed.

Lemma lineSource_eq (ld : LineData) (pop : list num) :
  LineData_wf ld -> length pop = ld.(nlev) ->
  lineSource ld pop =
  Ok (array_div (map (emissivity_at ld pop) (range ld.(nrad)))
                (map (opacity_at ld pop) (range ld.(nrad)))).
Proof.
  intros Hwf Hpop. unfold lineSource.
  rewrite lineEmissivity_eq, lineOpacity_eq by assumption. reflexivity.
Qed.

(** *** Arithmetic on finite values *)

Lemma is_finite_inv (x : num) : is_finite x -> x = Finite (to_R x).
Proof. destruct x; simpl; intros Hx; [reflexivity | contradiction ..]. Qed.

Lemma num_div_finite (a b : R) :
  b <> 0 -> (Finite a / Finite b)%num = Finite (a / b).
Proof.
  intros Hb. simpl. destruct (Req_dec_T b 0) as [E|_]; [contradiction|].
  reflexivity.
Qed.

Lemma num_div_zero (a : R) :
  is_undefined (Finite a / Finite 0)%num.
Proof.
  simpl. destruct (Req_dec_T 0 0) as [_|N]; [|contradiction].
  destruct (Req_dec_T a 0); [exact Logic.I|].
  destruct (Rlt_dec 0 a); exact Logic.I.
Qed.

(** A quotient of finite numbers is [inf] or [NaN] exactly when the
    divisor is zero. *)
Lemma num_div_undefined_iff (x y : num) :
  is_finite x -> is_finite y ->
  (is_undefined (x / y)%num <-> y = Finite 0).
Proof.
  intros Hx Hy.
  destruct x as [a| | |]; try contradiction.
  destruct y as [b| | |]; try contradiction.
  split.
  - intros Hu. destruct (Req_dec_T b 0) as [E|N].
    + rewrite E. reflexivity.
    + rewrite (num_div_finite a b N) in Hu. contradiction.
  - intros E. injection E as ->. apply num_div_zero.
Qed.

Lemma four_pi_neq_0 : 4.0 * PI <> 0.
Proof. pose proof PI_RGT_0. lra. Qed.

Lemma four_pi_pos : 0 < 4.0 * PI.
Proof. pose proof PI_RGT_0. lra. Qed.

Lemma is_finite_nth (l : list num) (k : nat) :
  Forall is_finite l -> (k < length l)%nat -> is_finite (nth k l NaN).
Proof.
  intros Hall Hk.
  destruct (l !! k) as [x|] eqn:Hl.
  - rewrite (nth_lookup_eq l k x NaN Hl).
    exact (proj1 (Forall_lookup _ l) Hall k x Hl).
  - apply lookup_ge_None in Hl. lia.
Qed.

Lemma emissivity_at_finite (ld : LineData) (pop : list num) (k : nat) :
  LineData_wf ld -> LineData_finite ld ->
  Forall is_finite pop -> length pop = ld.(nlev) -> (k < ld.(nrad))%nat ->
  is_finite (emissivity_at ld pop k).
Proof.
  intros Hwf Hfin Hpop Hlen Hk. destruct Hwf, Hfin.
  unfold emissivity_at, h, np_pi.
  rewrite (is_finite_inv (nth k ld.(frequency) NaN))
    by (apply is_finite_nth; [assumption | lia]).
  rewrite (is_finite_inv (nth k ld.(A) NaN))
    by (apply is_finite_nth; [assumption | lia]).
  rewrite (is_finite_inv (nth (Z.to_nat (nth k ld.(irad) 0%Z)) pop NaN)).
  - cbn [num_mul]. rewrite num_div_finite by apply four_pi_neq_0.
    exact Logic.I.
  - apply is_finite_nth; [assumption|].
    pose proof (level_index_valid ld.(irad) ld.(nlev) k wf_irad_level0).
    lia.
Qed.

Lemma opacity_at_finite (ld : LineData) (pop : list num) (k : nat) :
  LineData_wf ld -> LineData_finite ld ->
  Forall is_finite pop -> length pop = ld.(nlev) -> (k < ld.(nrad))%nat ->
  is_finite (opacity_at ld pop k).
Proof.
  intros Hwf Hfin Hpop Hlen Hk. destruct Hwf, Hfin.
  unfold opacity_at, h, np_pi.
  rewrite (is_finite_inv (nth k ld.(frequency) NaN))
    by (apply is_finite_nth; [assumption | lia]).
  rewrite (is_finite_inv (nth k ld.(Ba) NaN))
    by (apply is_finite_nth; [assumption | lia]).
  rewrite (is_finite_inv (nth k ld.(Bs) NaN))
    by (apply is_finite_nth; [assumption | lia]).
  rewrite (is_finite_inv (nth (Z.to_nat (nth k ld.(irad) 0%Z)) pop NaN)).
  - rewrite (is_finite_inv (nth (Z.to_nat (nth k ld.(jrad) 0%Z)) pop NaN)).
    + cbn [num_mul num_sub num_add num_opp].
      rewrite num_div_finite by apply four_pi_neq_0.
      exact Logic.I.
    + apply is_finite_nth; [assumption|].
      pose proof (level_index_valid ld.(jrad) ld.(nlev) k wf_jrad_level0).
      lia.
  - apply is_finite_nth; [assumption|].
    pose proof (level_index_valid ld.(irad) ld.(nlev) k wf_irad_level0).
    lia.
Qed.

Lemma inverted_linedata_wf : LineData_wf inverted_linedata.
Proof.
  constructor; simpl; try reflexivity; repeat constructor; lia.
Qed.

Lemma inverted_linedata_finite : LineData_finite inverted_linedata.
Proof. constructor; simpl; repeat constructor. Qed.

Lemma inverted_opacity :
  lineOpacity inverted_linedata inverted_pop =
  Ok [Finite (6.62607004E-34 * 1 / (4.0 * PI) * (1 * 0 - 1 * 1))].
Proof.
  rewrite lineOpacity_eq by (apply inverted_linedata_wf || reflexivity).
  cbn [map range seq inverted_linedata nrad]. unfold opacity_at.
  cbn [nth inverted_linedata irad jrad frequency Ba Bs inverted_pop Z.to_nat
       Pos.to_nat Pos.iter_op Init.Nat.add].
  unfold h, np_pi. cbn [num_mul num_sub num_add num_opp].
  rewrite num_div_finite by apply four_pi_neq_0.
  cbn [num_mul]. reflexivity.
Qed.

(** C6.  For a well-formed [LineData] and a population vector of length
    [nlev], [lineOpacity] raises nothing and returns [nrad] values; for a
    transition [k] with upper level [i = irad[k]] and lower level
    [j = jrad[k]], [chi[k] = h*frequency[k]/(4*pi) *
    (Ba[k]*pop[j] - Bs[k]*pop[i])].  No sign is checked: an inverted
    population gives a negative opacity as an ordinary return value. *)
Theorem lineOpacity_formula (ld : LineData) (pop : list num) :
  LineData_wf ld -> length pop = ld.(nlev) ->
  (exists chi,
     lineOpacity ld pop = Ok chi /\
     length chi = ld.(nrad) /\
     forall (k : nat) (i j : Z) (nu_k ba bs pop_i pop_j : num),
       ld.(irad) !! k = Some i -> ld.(jrad) !! k = Some j ->
       ld.(frequency) !! k = Some nu_k ->
       ld.(Ba) !! k = Some ba -> ld.(Bs) !! k = Some bs ->
       pop !! Z.to_nat i = Some pop_i -> pop !! Z.to_nat j = Some pop_j ->
       chi !! k =
       Some (h * nu_k / (Finite 4.0 * np_pi) * (ba * pop_j - bs * pop_i))%num)
  /\
  (exists r : R,
     lineOpacity inverted_linedata inverted_pop = Ok [Finite r] /\ r < 0).
Proof.
  intros Hwf Hpop. split.
  - exists (map (opacity_at ld pop) (range ld.(nrad))).
    split; [apply lineOpacity_eq; assumption|].
    split; [rewrite length_map; apply length_range|].
    intros k i j nu_k ba bs pop_i pop_j Hi Hj Hnu Hba Hbs Hpi Hpj.
    assert (Hk : (k < ld.(nrad))%nat).
    { apply lookup_lt_Some in Hi. destruct Hwf. lia. }
    rewrite lookup_map_range by exact Hk.
    unfold opacity_at.
    rewrite (nth_lookup_eq _ _ _ 0%Z Hi), (nth_lookup_eq _ _ _ 0%Z Hj).
    rewrite (nth_lookup_eq _ _ _ NaN Hnu), (nth_lookup_eq _ _ _ NaN Hba).
    rewrite (nth_lookup_eq _ _ _ NaN Hbs), (nth_lookup_eq _ _ _ NaN Hpi).
    rewrite (nth_lookup_eq _ _ _ NaN Hpj). reflexivity.
  - eexists. split; [apply inverted_opacity|].
    pose proof four_pi_pos as Hpi.
    assert (H1 : 0 < 6.62607004E-34 * 1 / (4.0 * PI)).
    { apply Rdiv_lt_0_compat; lra. }
    nra.
Qed.

Lemma lineOpacity_formula_witness :
  exists chi,
    lineOpacity inverted_linedata inverted_pop = Ok chi /\
    chi !! 0%nat =
    Some (h * Finite 1 / (Finite 4.0 * np_pi)
          * (Finite 1 * Finite 0 - Finite 1 * Finite 1))%num.
Proof.
  destruct (lineOpacity_formula inverted_linedata inverted_pop
              inverted_linedata_wf eq_refl) as [[chi [Hchi [_ Hk]]] _].
  exists chi. split; [exact Hchi|].
  apply (Hk 0%nat 1%Z 0%Z); reflexivity.
Defined.

(** C5.  For a well-formed [LineData] with finite entries and a finite
    population vector of length [nlev], [lineEmissivity] and [lineOpacity]
    return [nrad] values each, [lineSource] returns their elementwise
    quotient, and entry [k] of the quotient is [inf] or [NaN] exactly when
    [chi[k]] is zero. *)
Theorem lineSource_quotient (ld : LineData) (pop : list num) :
  LineData_wf ld -> LineData_finite ld ->
  Forall is_finite pop -> length pop = ld.(nlev) ->
  exists eta chi S,
    lineEmissivity ld pop = Ok eta /\
    lineOpacity ld pop = Ok chi /\
    lineSource ld pop = Ok S /\
    length eta = ld.(nrad) /\ length chi = ld.(nrad) /\
    length S = ld.(nrad) /\
    forall k : nat, (k < ld.(nrad))%nat ->
      exists eta_k chi_k,
        eta !! k = Some eta_k /\ chi !! k = Some chi_k /\
        S !! k = Some (eta_k / chi_k)%num /\
        (is_undefined (eta_k / chi_k)%num <-> chi_k = Finite 0).
Proof.
  intros Hwf Hfin Hpopfin Hpop.
  exists (map (emissivity_at ld pop) (range ld.(nrad))),
         (map (opacity_at ld pop) (range ld.(nrad))),
         (array_div (map (emissivity_at ld pop) (range ld.(nrad)))
                    (map (opacity_at ld pop) (range ld.(nrad)))).
  split; [apply lineEmissivity_eq; assumption|].
  split; [apply lineOpacity_eq; assumption|].
  split; [apply lineSource_eq; assumption|].
  split; [rewrite length_map; apply length_range|].
  split; [rewrite length_map; apply length_range|].
  split.
  - unfold array_div. rewrite length_zip_with, !length_map, length_range. lia.
  - intros k Hk.
    exists (emissivity_at ld pop k), (opacity_at ld pop k).
    split; [apply lookup_map_range; exact Hk|].
    split; [apply lookup_map_range; exact Hk|].
    split.
    + unfold array_div. rewrite lookup_zip_with.
      rewrite !lookup_map_range by exact Hk. reflexivity.
    + apply num_div_undefined_iff.
      * apply emissivity_at_finite; assumption.
      * apply opacity_at_finite; assumption.
Qed.

Lemma lineSource_quotient_witness :
  exists S, lineSource inverted_linedata inverted_pop = Ok S /\
            length S = 1%nat.
Proof.
  destruct (lineSource_quotient inverted_linedata inverted_pop
              inverted_linedata_wf inverted_linedata_finite)
    as (eta & chi & S & _ & _ & HS & _ & _ & Hlen & _).
  - repeat constructor.
  - reflexivity.
  - exists S. split; [exact HS | exact Hlen].
Defined.

(* ===================================================================== *)
(** ** The Planck function *)
(* ===================================================================== *)


Lemma kb_pos : 0 < to_R kb.
Proof. simpl. lra. Qed.

Lemma c_pos : 0 < to_R c.
Proof. simpl. lra. Qed.







(* ===================================================================== *)
(** ** LTE level populations *)
(* ===================================================================== *)

Lemma fold_left_Rplus (l : list R) (a : R) :
  fold_left Rplus l a = a + Rsum l.
Proof.
  unfold Rsum. revert a. induction l as [|x l IH]; intros a; simpl.
  - lra.
  - rewrite (IH (a + x)), (IH (0 + x)). lra.
Qed.

Lemma Rsum_cons (x : R) (l : list R) : Rsum (x :: l) = x + Rsum l.
Proof. unfold Rsum at 1. simpl. rewrite fold_left_Rplus. lra. Qed.

Lemma Rsum_nonneg (l : list R) : Forall (fun x => 0 <= x) l -> 0 <= Rsum l.
Proof.
  induction 1 as [|x l Hx _ IH].
  - unfold Rsum. simpl. lra.
  - rewrite Rsum_cons. lra.
Qed.

Lemma Rsum_pos (l : list R) :
  Forall (fun x => 0 <= x) l -> Exists (fun x => 0 < x) l -> 0 < Rsum l.
Proof.
  intros Hall Hex. induction Hex as [x l Hx | x l _ IH].
  - rewrite Rsum_cons. apply Forall_inv_tail in Hall.
    pose proof (Rsum_nonneg l Hall). lra.
  - rewrite Rsum_cons. pose proof (Forall_inv Hall) as Hx. simpl in Hx.
    apply Forall_inv_tail in Hall. specialize (IH Hall). lra.
Qed.


Lemma py_sum_from (l : list R) (a : R) :
  fold_left num_add (map Finite l) (Finite a) = Finite (fold_left Rplus l a).
Proof.
  revert a. induction l as [|x l IH]; intros a; simpl.
  - reflexivity.
  - apply IH.
Qed.

Lemma py_sum_finite (l : list R) : py_sum (map Finite l) = Finite (Rsum l).
Proof. apply py_sum_from. Qed.

(** The unnormalised loop of [LTEpop], before the division. *)
Lemma LTEpop_loop (ld : LineData) (T : num) :
  LineData_wf ld ->
  LTEpop ld T =
  let pop := map (fun i => (nth i ld.(weight) NaN
                            * num_exp (- nth i ld.(energy) NaN / (kb * T)))%num)
                 (range ld.(nlev)) in
  Ok (map (fun p => (p / py_sum pop)%num) pop).
Proof.
  intros Hwf. unfold LTEpop.
  rewrite (mapM_Ok_map _
    (fun i => (nth i ld.(weight) NaN
               * num_exp (- nth i ld.(energy) NaN / (kb * T)))%num)).
  - reflexivity.
  - intros i Hi. apply in_range in Hi. destruct Hwf.
    rewrite (getitem_lt ld.(weight) i NaN) by lia. rewrite bind_Ok.
    rewrite (getitem_lt ld.(energy) i NaN) by lia. reflexivity.
Qed.

Lemma kbT_neq_0 (T : R) : T <> 0 -> to_R kb * T <> 0.
Proof. intros HT. pose proof kb_pos. nra. Qed.

(** With finite levels and a partition function that is not zero, entry
    [i] is the Boltzmann term over the partition function. *)
Lemma LTEpop_eq (ld : LineData) (T : R) :
  LineData_wf ld -> levels_finite ld -> T <> 0 ->
  partition_function ld T <> 0 ->
  LTEpop ld (Finite T) =
  Ok (map Finite
        (map (fun r => r / partition_function ld T)
             (map (boltzmann ld T) (range ld.(nlev))))).
Proof.
  intros Hwf [Hw He] HT HZ. rewrite LTEpop_loop by exact Hwf.
  cbv zeta.
  assert (Hraw :
    map (fun i => (nth i ld.(weight) NaN
                   * num_exp (- nth i ld.(energy) NaN / (kb * Finite T)))%num)
        (range ld.(nlev))
    = map Finite (map (boltzmann ld T) (range ld.(nlev)))).
  { rewrite map_map. apply map_ext_in. intros i Hi. apply in_range in Hi.
    destruct Hwf.
    rewrite (is_finite_inv (nth i ld.(weight) NaN))
      by (apply is_finite_nth; [assumption | lia]).
    rewrite (is_finite_inv (nth i ld.(energy) NaN))
      by (apply is_finite_nth; [assumption | lia]).
    unfold kb at 1. cbn [num_opp num_mul].
    rewrite num_div_finite by (apply (kbT_neq_0 T HT)).
    reflexivity. }
  rewrite Hraw, py_sum_finite. fold (partition_function ld T).
  f_equal. rewrite !map_map. apply map_ext. intros i.
  apply num_div_finite. exact HZ.
Qed.

Lemma boltzmann_sign (ld : LineData) (T : R) (i : nat) (w : num) :
  ld.(weight) !! i = Some w ->
  (0 <= to_R w -> 0 <= boltzmann ld T i) /\
  (0 < to_R w -> 0 < boltzmann ld T i) /\
  (to_R w < 0 -> boltzmann ld T i < 0).
Proof.
  intros Hw. unfold boltzmann. rewrite (nth_lookup_eq _ _ _ NaN Hw).
  pose proof (exp_pos (- to_R (nth i ld.(energy) NaN) / (to_R kb * T))).
  repeat split; intros; nra.
Qed.

Lemma partition_function_pos (ld : LineData) (T : R) :
  LineData_wf ld -> weights_positive ld -> 0 < partition_function ld T.
Proof.
  intros Hwf [Hnn Hex]. unfold partition_function. apply Rsum_pos.
  - apply List.Forall_forall. intros x Hx. apply in_map_iff in Hx.
    destruct Hx as (i & <- & Hi). apply in_range in Hi.
    destruct (ld.(weight) !! i) as [w|] eqn:Hw.
    + apply (boltzmann_sign ld T i w Hw).
      exact (proj1 (Forall_lookup _ _) Hnn i w Hw).
    + apply lookup_ge_None in Hw. destruct Hwf. lia.
  - apply List.Exists_exists in Hex. destruct Hex as (w & Hin & Hpos).
    apply list_elem_of_In, list_elem_of_lookup in Hin. destruct Hin as [i Hw].
    apply List.Exists_exists. exists (boltzmann ld T i). split.
    + apply in_map_iff. exists i. split; [reflexivity|].
      apply in_range. apply lookup_lt_Some in Hw. destruct Hwf. lia.
    + apply (boltzmann_sign ld T i w Hw). exact Hpos.
Qed.





(* ===================================================================== *)
(** ** Running the exporter *)
(* ===================================================================== *)

Lemma IO_bind_run {A B : Type} (m : IO A) (f : A -> IO B) (w w' : world)
    (a : A) :
  m w = (Ok a, w') -> (m ≫= f) w = f a w'.
Proof. intros Hm. unfold mbind, IO_bind. rewrite Hm. reflexivity. Qed.

Lemma IO_bind_raise {A B : Type} (m : IO A) (f : A -> IO B) (w w' : world)
    (e : exn) :
  m w = (Raise e, w') -> (m ≫= f) w = (Raise e, w').
Proof. intros Hm. unfold mbind, IO_bind. rewrite Hm. reflexivity. Qed.

Lemma string_app_neq (s t : string) : t <> EmptyString -> s +:+ t <> s.
Proof.
  intros Ht. induction s as [|a s IH]; simpl.
  - exact Ht.
  - intros E. injection E as E. exact (IH E).
Qed.

Section ExporterFacts.

Variable os_path_abspath : string -> string.
Variable os_path_dirname : string -> string.
Variable interpolator :
  string -> list num -> list num -> list num -> result (num -> num -> num).

Local Abbreviation resolve_filename' :=
  (resolve_filename os_path_abspath os_path_dirname).
Local Abbreviation target_path' := (target_path os_path_abspath os_path_dirname).
Local Abbreviation resolved_world' :=
  (resolved_world os_path_abspath os_path_dirname).
Local Abbreviation images_dir' := (images_dir os_path_abspath os_path_dirname).
Local Abbreviation save_fits' :=
  (save_fits os_path_abspath os_path_dirname interpolator).
Local Abbreviation interpolate_cube' := (interpolate_cube interpolator).

Lemma resolve_filename_run (model : Model) (filename : option string)
    (w : world) :
  resolve_filename' model filename w =
  (Ok (target_path' model filename), resolved_world' model filename w).
Proof.
  unfold resolve_filename, target_path, resolved_world.
  destruct (falsy filename); [|reflexivity].
  fold (images_dir' model).
  unfold mbind, IO_bind, os_path_exists, os_makedirs, print, mret, IO_ret.
  destruct (w.(fs) !! images_dir' model) as [n|] eqn:Hdir.
  - rewrite bool_decide_eq_true_2 by (eexists; reflexivity).
    simpl. reflexivity.
  - rewrite bool_decide_eq_false_2 by (intros [n Hn]; discriminate).
    simpl. rewrite Hdir. reflexivity.
Qed.

(** Resolving the file name leaves the target path as it was. *)
Lemma resolved_world_target (model : Model) (filename : option string)
    (w : world) :
  (resolved_world' model filename w).(fs) !! target_path' model filename
  = w.(fs) !! target_path' model filename.
Proof.
  unfold resolved_world, target_path.
  destruct (falsy filename); [|reflexivity].
  destruct (w.(fs) !! images_dir' model); [reflexivity|].
  simpl. apply lookup_insert_ne.
  intros E. symmetry in E. revert E. apply string_app_neq. discriminate.
Qed.

Lemma isfile_run (path : string) (w : world) :
  os_path_isfile path w =
  (Ok (match w.(fs) !! path with Some (File _) => true | _ => false end), w).
Proof. reflexivity. Qed.

Lemma remove_run (path : string) (w : world) :
  (if match w.(fs) !! path with Some (File _) => true | _ => false end
   then os_remove path else mret ()) w
  = (Ok (), cleared_world path w).
Proof.
  unfold os_remove, cleared_world, mret, IO_ret.
  destruct (w.(fs) !! path) as [[|payload]|] eqn:Hp; try reflexivity.
  rewrite Hp. reflexivity.
Qed.

Lemma cleared_world_free (path : string) (w : world) :
  w.(fs) !! path <> Some Directory ->
  (cleared_world path w).(fs) !! path = None.
Proof.
  intros Hp. unfold cleared_world.
  destruct (w.(fs) !! path) as [[|payload]|] eqn:E.
  - contradiction.
  - simpl. apply lookup_delete_eq.
  - exact E.
Qed.

Lemma cleared_world_stdout (path : string) (w : world) :
  (cleared_world path w).(stdout) = w.(stdout).
Proof.
  unfold cleared_world. destruct (w.(fs) !! path) as [[|payload]|]; reflexivity.
Qed.

Lemma no_images_guard (model : Model) :
  model.(images) <> [] -> (length model.(images) <? 1)%nat = false.
Proof.
  intros Hne. destruct model.(images); [contradiction|]. reflexivity.
Qed.

(** One run of [save_fits] in which every step succeeds. *)
Lemma save_fits_run (model : Model) (filename : option string)
    (image_nr : Z) (zoom : num) (npix_x npix_y : nat) (method : string)
    (w : world) (im : Image) (x_min x_max y_min y_max : num)
    (freqs : list num) (dfreq dfreq' : option num) (warn : bool)
    (zs : list array2) (centfreq dpix_x dpix_y : num) :
  model.(images) <> [] ->
  py_index model.(images) image_nr = Ok im ->
  boundaries im.(ImX) zoom = Ok (x_min, x_max) ->
  boundaries im.(ImY) zoom = Ok (y_min, y_max) ->
  py_index model.(nu) 0 = Ok freqs ->
  frequency_spacing freqs = Ok (dfreq, warn) ->
  interpolate_cube' im.(ImX) im.(ImY) im.(I)
    (np_linspace x_min x_max npix_x) (np_linspace y_min y_max npix_y)
    model.(parameters).(nfreqs) npix_x npix_y method = Ok zs ->
  header_float (np_mean freqs) = Ok centfreq ->
  header_float (np_mean (np_diff (np_linspace x_min x_max npix_x)))
    = Ok dpix_x ->
  header_float (np_mean (np_diff (np_linspace y_min y_max npix_y)))
    = Ok dpix_y ->
  header_float_opt dfreq = Ok dfreq' ->
  w.(fs) !! target_path' model filename <> Some Directory ->
  save_fits' model filename image_nr zoom npix_x npix_y method w =
  (Ok (),
   {| fs :=
        <[target_path' model filename :=
            File (Fits
              {| NAXIS := 3;
                 NAXIS1 := model.(parameters).(nfreqs);
                 NAXIS2 := npix_x;
                 NAXIS3 := npix_y;
                 CENTFREQ := centfreq;
                 DPIX_X := dpix_x;
                 DPIX_Y := dpix_y;
                 DFREQ := dfreq';
                 IM_UNIT := "W m^-2 Hz^-1 ster^-1" |}
              {| cube_shape := (model.(parameters).(nfreqs), npix_x, npix_y);
                 slices := zs |})]>
          (cleared_world (target_path' model filename)
             (resolved_world' model filename w)).(fs);
      stdout :=
        (resolved_world' model filename w).(stdout)
        ++ warning_lines warn
        ++ ["Written file to: " +:+ target_path' model filename] |}).
Proof.
  intros Hne Him Hbx Hby Hfreqs Hspacing Hcube Hcent Hdx Hdy Hdf Hfree.
  unfold save_fits. rewrite (no_images_guard model Hne).
  rewrite (IO_bind_run _ _ _ _ _ (resolve_filename_run model filename w)).
  set (path := target_path' model filename).
  set (w1 := resolved_world' model filename w).
  rewrite (IO_bind_run _ _ _ _ _ (isfile_run path w1)). cbv beta.
  rewrite (IO_bind_run _ _ _ _ _ (remove_run path w1)).
  set (w2 := cleared_world path w1).
  unfold lift, mbind, IO_bind.
  rewrite Him, Hbx, Hby, Hfreqs, Hspacing.
  assert (Hprint :
    (if warn
     then print "WARNING: No regularly spaced frequency bins!"
     else mret ()) w2
    = (Ok (), {| fs := w2.(fs); stdout := w2.(stdout) ++ warning_lines warn |})).
  { destruct warn; unfold print, mret, IO_ret, warning_lines.
    - reflexivity.
    - rewrite app_nil_r. destruct w2; reflexivity. }
  rewrite Hprint, Hcube, Hcent, Hdx, Hdy, Hdf.
  unfold fits_writeto. cbn [fs stdout].
  assert (Hnone : w2.(fs) !! path = None).
  { apply cleared_world_free. unfold w1, path.
    rewrite resolved_world_target. exact Hfree. }
  rewrite Hnone. unfold print. cbn [fs stdout].
  unfold w2. rewrite cleared_world_stdout.
  rewrite <- app_assoc. reflexivity.
Qed.

(* --------------------------------------------------------------------- *)
(** *** Finite arrays *)
(* --------------------------------------------------------------------- *)

Lemma finite_list (l : list num) :
  Forall is_finite l -> l = map Finite (map to_R l).
Proof.
  induction 1 as [|x l Hx _ IH]; simpl.
  - reflexivity.
  - rewrite <- IH, <- (is_finite_inv x Hx). reflexivity.
Qed.

Lemma Forall_finite_map (l : list R) : Forall is_finite (map Finite l).
Proof. induction l; simpl; constructor; [exact Logic.I | assumption]. Qed.

Lemma num_min_finite (a b : R) :
  num_min (Finite a) (Finite b) = Finite (Rmin a b).
Proof.
  unfold num_min, num_gtb, Rmin.
  destruct (Rlt_dec b a), (Rle_dec a b); try reflexivity; f_equal; lra.
Qed.

Lemma num_max_finite (a b : R) :
  num_max (Finite a) (Finite b) = Finite (Rmax a b).
Proof.
  unfold num_max, num_gtb, Rmax.
  destruct (Rlt_dec a b), (Rle_dec a b); try reflexivity; f_equal; lra.
Qed.

Lemma fold_num_min_finite (l : list R) (a : R) :
  fold_left num_min (map Finite l) (Finite a) = Finite (fold_left Rmin l a).
Proof.
  revert a. induction l as [|x l IH]; intros a; cbn [map fold_left].
  - reflexivity.
  - rewrite num_min_finite. apply IH.
Qed.

Lemma fold_num_max_finite (l : list R) (a : R) :
  fold_left num_max (map Finite l) (Finite a) = Finite (fold_left Rmax l a).
Proof.
  revert a. induction l as [|x l IH]; intros a; cbn [map fold_left].
  - reflexivity.
  - rewrite num_max_finite. apply IH.
Qed.

(** The folded minimum is a lower bound and is attained. *)
Lemma fold_Rmin_spec (l : list R) (a : R) :
  let m := fold_left Rmin l a in
  In m (a :: l) /\ forall x, In x (a :: l) -> m <= x.
Proof.
  revert a. induction l as [|y l IH]; intros a; simpl.
  - split; [left; reflexivity|]. intros x [<-|[]]. lra.
  - destruct (IH (Rmin a y)) as [Hin Hle]. simpl in Hin, Hle. split.
    + destruct Hin as [E|Hin]; [|right; right; exact Hin].
      rewrite <- E. unfold Rmin. destruct (Rle_dec a y); auto.
    + intros x [<-|[<-|Hx]].
      * pose proof (Hle (Rmin a y) (or_introl eq_refl)).
        pose proof (Rmin_l a y). lra.
      * pose proof (Hle (Rmin a y) (or_introl eq_refl)).
        pose proof (Rmin_r a y). lra.
      * apply Hle. right. exact Hx.
Qed.

(** The folded maximum is an upper bound and is attained. *)
Lemma fold_Rmax_spec (l : list R) (a : R) :
  let m := fold_left Rmax l a in
  In m (a :: l) /\ forall x, In x (a :: l) -> x <= m.
Proof.
  revert a. induction l as [|y l IH]; intros a; simpl.
  - split; [left; reflexivity|]. intros x [<-|[]]. lra.
  - destruct (IH (Rmax a y)) as [Hin Hle]. simpl in Hin, Hle. split.
    + destruct Hin as [E|Hin]; [|right; right; exact Hin].
      rewrite <- E. unfold Rmax. destruct (Rle_dec a y); auto.
    + intros x [<-|[<-|Hx]].
      * pose proof (Hle (Rmax a y) (or_introl eq_refl)).
        pose proof (Rmax_l a y). lra.
      * pose proof (Hle (Rmax a y) (or_introl eq_refl)).
        pose proof (Rmax_r a y). lra.
      * apply Hle. right. exact Hx.
Qed.

(** [np.min] and [np.max] of a finite, non-empty array. *)
Lemma np_min_finite (l : list R) :
  l <> [] ->
  exists m : R, np_min (map Finite l) = Ok (Finite m) /\
                In m l /\ forall x, In x l -> m <= x.
Proof.
  destruct l as [|a l]; [contradiction|]. intros _.
  exists (fold_left Rmin l a). split.
  - cbn [map np_min]. rewrite fold_num_min_finite. reflexivity.
  - apply fold_Rmin_spec.
Qed.

Lemma np_max_finite (l : list R) :
  l <> [] ->
  exists m : R, np_max (map Finite l) = Ok (Finite m) /\
                In m l /\ forall x, In x l -> x <= m.
Proof.
  destruct l as [|a l]; [contradiction|]. intros _.
  exists (fold_left Rmax l a). split.
  - cbn [map np_max]. rewrite fold_num_max_finite. reflexivity.
  - apply fold_Rmax_spec.
Qed.

Lemma np_diff_finite (l : list num) :
  Forall is_finite l -> Forall is_finite (np_diff l).
Proof.
  induction 1 as [|x l Hx Hl IH]; simpl; [constructor|].
  destruct l as [|y l']; [constructor|].
  constructor; [|exact IH].
  apply Forall_inv in Hl.
  destruct x, y; try contradiction. exact Logic.I.
Qed.

Lemma length_np_diff (l : list num) :
  length (np_diff l) = (length l - 1)%nat.
Proof.
  induction l as [|x l IH]; [reflexivity|].
  destruct l as [|y l']; [reflexivity|].
  change (np_diff (x :: y :: l')) with ((y - x)%num :: np_diff (y :: l')).
  simpl length in *. rewrite IH. lia.
Qed.

Lemma np_mean_finite (l : list num) :
  Forall is_finite l -> l <> [] -> is_finite (np_mean l).
Proof.
  intros Hfin Hne. unfold np_mean.
  rewrite (finite_list l Hfin), py_sum_finite, length_map, length_map.
  rewrite num_div_finite; [exact Logic.I|].
  apply not_0_INR. destruct l; [contradiction | discriminate].
Qed.

Lemma header_float_finite (v : num) : is_finite v -> header_float v = Ok v.
Proof. destruct v; simpl; intros Hv; [reflexivity | contradiction ..]. Qed.

(* --------------------------------------------------------------------- *)
(** *** The pixel grid *)
(* --------------------------------------------------------------------- *)

Lemma length_set_last (l : list num) (v : num) :
  length (set_last l v) = length l.
Proof.
  induction l as [|x l IH]; [reflexivity|].
  destruct l as [|y l']; [reflexivity|].
  change (set_last (x :: y :: l') v) with (x :: set_last (y :: l') v).
  simpl length in *. rewrite IH. reflexivity.
Qed.

Lemma set_last_finite (l : list num) (v : num) :
  Forall is_finite l -> is_finite v -> Forall is_finite (set_last l v).
Proof.
  intros Hl Hv. induction Hl as [|x l Hx Hl IH]; [constructor|].
  destruct l as [|y l'].
  - constructor; [exact Hv | constructor].
  - change (set_last (x :: y :: l') v) with (x :: set_last (y :: l') v).
    constructor; assumption.
Qed.

Lemma set_last_head (x y : num) (l : list num) (v : num) :
  set_last (x :: y :: l) v !! 0%nat = Some x.
Proof. reflexivity. Qed.

Lemma set_last_last (l : list num) (v : num) :
  l <> [] -> set_last l v !! (length l - 1)%nat = Some v.
Proof.
  induction l as [|x l IH]; [contradiction|]. intros _.
  destruct l as [|y l']; [reflexivity|].
  change (set_last (x :: y :: l') v) with (x :: set_last (y :: l') v).
  replace (length (x :: y :: l') - 1)%nat with (S (length (y :: l') - 1))
    by (simpl; lia).
  apply IH. discriminate.
Qed.

Lemma np_linspace_eq (a b : R) (n : nat) :
  (2 <= n)%nat ->
  np_linspace (Finite a) (Finite b) n =
  set_last (map (fun i => Finite (linspace_sample a b n i)) (range n))
           (Finite b).
Proof.
  intros Hn. unfold np_linspace.
  destruct (Nat.ltb_spec 0 (n - 1)) as [_|Hbad]; [|lia].
  destruct (Nat.ltb_spec 1 n) as [_|Hbad]; [|lia].
  rewrite !map_map. f_equal. apply map_ext. intros i.
  cbn [num_sub num_opp num_add].
  rewrite num_div_finite by (apply not_0_INR; lia).
  reflexivity.
Qed.

Lemma length_np_linspace (start stop : num) (n : nat) :
  length (np_linspace start stop n) = n.
Proof.
  unfold np_linspace.
  destruct (0 <? n - 1)%nat, (1 <? n)%nat;
    rewrite ?length_set_last, !length_map; apply length_range.
Qed.

Lemma np_linspace_finite (a b : R) (n : nat) :
  Forall is_finite (np_linspace (Finite a) (Finite b) n).
Proof.
  destruct (le_lt_dec 2 n) as [Hn|Hn].
  - rewrite np_linspace_eq by exact Hn.
    apply set_last_finite; [|exact Logic.I].
    apply List.Forall_forall. intros x Hx. apply in_map_iff in Hx.
    destruct Hx as (i & <- & _). exact Logic.I.
  - unfold np_linspace.
    destruct (Nat.ltb_spec 0 (n - 1)) as [Hbad|_]; [lia|].
    destruct (Nat.ltb_spec 1 n) as [Hbad|_]; [lia|].
    rewrite !map_map.
    apply List.Forall_forall. intros x Hx. apply in_map_iff in Hx.
    destruct Hx as (i & <- & _). exact Logic.I.
Qed.

(** The grid starts at the lower bound and ends at the upper bound. *)
Lemma np_linspace_ends (a b : R) (n : nat) :
  (2 <= n)%nat ->
  np_linspace (Finite a) (Finite b) n !! 0%nat = Some (Finite a) /\
  np_linspace (Finite a) (Finite b) n !! (n - 1)%nat = Some (Finite b).
Proof.
  intros Hn. rewrite np_linspace_eq by exact Hn. split.
  - destruct n as [|[|n]]; try lia.
    unfold range. cbn [seq map]. rewrite set_last_head.
    do 2 f_equal. unfold linspace_sample. simpl INR at 1. lra.
  - pose proof (set_last_last
      (map (fun i => Finite (linspace_sample a b n i)) (range n)) (Finite b))
      as Hlast.
    rewrite length_map, length_range in Hlast. apply Hlast.
    destruct n; [lia | discriminate].
Qed.

(** The mean pixel size is a finite number as soon as there are two
    pixels. *)
Lemma pixel_size_finite (a b : R) (n : nat) :
  (2 <= n)%nat ->
  is_finite (np_mean (np_diff (np_linspace (Finite a) (Finite b) n))).
Proof.
  intros Hn. apply np_mean_finite.
  - apply np_diff_finite, np_linspace_finite.
  - intros E. apply (f_equal length) in E.
    rewrite length_np_diff, length_np_linspace in E. simpl in E. lia.
Qed.

(** The boundaries of finite coordinates under a zoom that is not zero. *)
Lemma boundaries_finite (coords : list R) (zoom : R) :
  coords <> [] -> zoom <> 0 ->
  exists lo hi : R,
    np_min (map Finite coords) = Ok (Finite lo) /\
    np_max (map Finite coords) = Ok (Finite hi) /\
    (In lo coords /\ forall x, In x coords -> lo <= x) /\
    (In hi coords /\ forall x, In x coords -> x <= hi) /\
    boundaries (map Finite coords) (Finite zoom)
    = Ok (Finite (lo / zoom), Finite (hi / zoom)).
Proof.
  intros Hne Hz.
  destruct (np_min_finite coords Hne) as (lo & Hmin & Hlo).
  destruct (np_max_finite coords Hne) as (hi & Hmax & Hhi).
  exists lo, hi. repeat split; try assumption; try apply Hlo; try apply Hhi.
  unfold boundaries. rewrite Hmin, Hmax. rewrite !bind_Ok.
  rewrite !num_div_finite by exact Hz. reflexivity.
Qed.

(** C2, as stated, fails: for the coordinates [1] and [3] and a zoom of
    [2] the box is [[0.5, 1.5]], centred on [1], while the raw box is
    centred on [2]. *)
Lemma bounding_box_off_centre :
  ~ bounding_box_centered [Finite 1; Finite 3] 2.
Proof.
  intros (lo & hi & lo' & hi' & Hmin & Hmax & Hb & _ & Hcentre).
  destruct (boundaries_finite [1; 3] 2) as
    (lo0 & hi0 & Hmin0 & Hmax0 & [Hlo_in Hlo] & [Hhi_in Hhi] & Hb0);
    [discriminate | lra |].
  cbn [map] in Hmin0, Hmax0, Hb0.
  rewrite Hmin0 in Hmin. rewrite Hmax0 in Hmax. rewrite Hb0 in Hb.
  injection Hmin as <-. injection Hmax as <-. injection Hb as <- <-.
  pose proof (Hlo 1 (or_introl eq_refl)).
  pose proof (Hhi 3 (or_intror (or_introl eq_refl))).
  simpl in Hlo_in, Hhi_in.
  destruct Hlo_in as [<-|[<-|[]]]; destruct Hhi_in as [<-|[<-|[]]]; lra.
Qed.

(** C2, as amended.  For finite scattered coordinates, a zoom that is not
    zero and at least two pixels, the regular grid runs from [min/zoom]
    to [max/zoom]: the extent of this box is the raw extent over the
    zoom, and its centre is the centre of the raw box over the zoom, so
    that the box is the raw box scaled about the origin of the
    coordinates; the two centres agree when the raw box is centred on the
    origin. *)
Theorem bounding_box_scaled (coords : list R) (zoom : R) (npix : nat) :
  coords <> [] -> zoom <> 0 -> (2 <= npix)%nat ->
  exists lo hi : R,
    (In lo coords /\ forall x, In x coords -> lo <= x) /\
    (In hi coords /\ forall x, In x coords -> x <= hi) /\
    boundaries (map Finite coords) (Finite zoom)
    = Ok (Finite (lo / zoom), Finite (hi / zoom)) /\
    np_linspace (Finite (lo / zoom)) (Finite (hi / zoom)) npix !! 0%nat
    = Some (Finite (lo / zoom)) /\
    np_linspace (Finite (lo / zoom)) (Finite (hi / zoom)) npix
      !! (npix - 1)%nat
    = Some (Finite (hi / zoom)) /\
    hi / zoom - lo / zoom = (hi - lo) / zoom /\
    (lo / zoom + hi / zoom) / 2 = (lo + hi) / 2 / zoom /\
    (lo + hi = 0 -> (lo / zoom + hi / zoom) / 2 = (lo + hi) / 2).
Proof.
  intros Hne Hz Hn.
  destruct (boundaries_finite coords zoom Hne Hz)
    as (lo & hi & _ & _ & Hlo & Hhi & Hb).
  exists lo, hi.
  split; [exact Hlo|]. split; [exact Hhi|]. split; [exact Hb|].
  destruct (np_linspace_ends (lo / zoom) (hi / zoom) npix Hn) as [H0 Hlast].
  split; [exact H0|]. split; [exact Hlast|].
  split; [field; exact Hz|].
  split; [field; exact Hz|].
  intros Hsum. replace hi with (- lo) by lra. field. exact Hz.
Qed.

(* --------------------------------------------------------------------- *)
(** *** The interpolation loop *)
(* --------------------------------------------------------------------- *)

Lemma nth_map_lt {X Y : Type} (g : X -> Y) (l : list X) (k : nat) (dx : X)
    (dy : Y) :
  (k < length l)%nat -> nth k (map g l) dy = g (nth k l dx).
Proof.
  intros Hk. rewrite (nth_indep (map g l) dy (g dx))
    by (rewrite length_map; exact Hk).
  apply map_nth.
Qed.

(** On a square grid the assignment [zs[f] = griddata(...)] copies the
    interpolated array as it is: its first index runs over [ys]. *)
Lemma broadcast_square (ip : num -> num -> num) (xs ys : list num) (n : nat) :
  length xs = n -> length ys = n ->
  broadcast_to (n, n)
    {| shape2 := (length ys, length xs);
       rows2 := map (fun y => map (fun x => ip x y) xs) ys |}
  = Ok (grid_slice ip xs ys n).
Proof.
  intros Hxs Hys. unfold broadcast_to. cbn [shape2 rows2].
  rewrite Hxs, Hys, Nat.eqb_refl. cbn [orb andb].
  unfold grid_slice. do 2 f_equal.
  apply map_ext_in. intros a Ha. apply in_range in Ha.
  apply map_ext_in. intros b Hb. apply in_range in Hb.
  rewrite (nth_map_lt (fun y => map (fun x => ip x y) xs) ys a NaN [])
    by lia.
  rewrite (nth_map_lt (fun x => ip x (nth a ys NaN)) xs b NaN NaN) by lia.
  reflexivity.
Qed.

(** On a grid that is not square the assignment raises [ValueError]. *)
Lemma broadcast_rectangular (src : list (list num)) (npix_x npix_y : nat) :
  npix_x <> npix_y ->
  broadcast_to (npix_x, npix_y)
    {| shape2 := (npix_y, npix_x); rows2 := src |}
  = Raise ValueError.
Proof.
  intros Hne. unfold broadcast_to. cbn [shape2].
  destruct (Nat.eqb_spec npix_y npix_x) as [E|_]; [congruence|].
  destruct (Nat.eqb_spec npix_x npix_y) as [E|_]; [congruence|].
  destruct (Nat.eqb_spec npix_y 1) as [Ey|_];
    destruct (Nat.eqb_spec npix_x 1) as [Ex|_];
    try reflexivity.
  congruence.
Qed.

Lemma interpolate_cube_square (method : string) (im : Image)
    (xs ys : list num) (nfreqs n : nat) :
  length xs = n -> length ys = n ->
  (forall f : nat, (f < nfreqs)%nat ->
     exists values ip,
       column im.(I) f = Ok values /\
       interpolator method im.(ImX) im.(ImY) values = Ok ip) ->
  interpolate_cube' im.(ImX) im.(ImY) im.(I) xs ys nfreqs n n method
  = Ok (map (fun f => grid_slice (bin_interpolant interpolator method im f)
                                 xs ys n)
            (range nfreqs)).
Proof.
  intros Hxs Hys Hinterp. unfold interpolate_cube.
  apply mapM_Ok_map. intros f Hf. apply in_range in Hf.
  destruct (Hinterp f Hf) as (values & ip & Hcol & Hip).
  unfold bin_interpolant. rewrite Hcol, bind_Ok. unfold griddata.
  rewrite Hip, !bind_Ok. apply broadcast_square; assumption.
Qed.

(** With a first frequency bin that can be interpolated, a grid that is
    not square stops the loop at its first assignment. *)
Lemma interpolate_cube_rectangular (method : string) (im : Image)
    (xs ys : list num) (nfreqs npix_x npix_y : nat)
    (values : list num) (ip : num -> num -> num) :
  length xs = npix_x -> length ys = npix_y -> npix_x <> npix_y ->
  (0 < nfreqs)%nat ->
  column im.(I) 0 = Ok values ->
  interpolator method im.(ImX) im.(ImY) values = Ok ip ->
  interpolate_cube' im.(ImX) im.(ImY) im.(I) xs ys nfreqs npix_x npix_y method
  = Raise ValueError.
Proof.
  intros Hxs Hys Hne Hn Hcol Hip. unfold interpolate_cube.
  destruct nfreqs as [|m]; [lia|].
  unfold range. cbn [seq]. apply mapM_Raise_head.
  rewrite Hcol, bind_Ok. unfold griddata. rewrite Hip, !bind_Ok.
  rewrite Hxs, Hys. apply broadcast_rectangular. exact Hne.
Qed.

(* --------------------------------------------------------------------- *)
(** *** The frequency spacing *)
(* --------------------------------------------------------------------- *)

Lemma relative_error_finite (a b : R) :
  relative_error (Finite a) (Finite b)
  = (Finite (2.0 * (a - b)) / Finite (a + b))%num.
Proof. reflexivity. Qed.

(** The test on line 193 is the comparison of the extreme steps with the
    tolerance times their mean, also when the steps sum to zero. *)
Lemma spacing_check_iff (a b : R) :
  (num_abs (relative_error (Finite a) (Finite b)) >? Finite 1.0e-9)%num = true
  <-> spacing_irregular a b.
Proof.
  rewrite relative_error_finite. unfold spacing_irregular.
  destruct (Req_dec_T (a + b) 0) as [Hs|Hs].
  - rewrite Hs. cbn [num_div].
    destruct (Req_dec_T 0 0) as [_|N]; [|contradiction].
    replace (0 / 2) with 0 by lra. rewrite Rabs_R0, Rmult_0_r.
    destruct (Req_dec_T (2.0 * (a - b)) 0) as [Hd|Hd].
    + cbn [num_abs num_gtb]. replace (a - b) with 0 by lra.
      rewrite Rabs_R0. split; [discriminate | lra].
    + assert (Hpos : Rabs (a - b) > 0).
      { apply Rabs_pos_lt. lra. }
      destruct (Rlt_dec 0 (2.0 * (a - b)));
        cbn [num_abs num_gtb]; split; auto.
  - rewrite num_div_finite by exact Hs. cbn [num_abs num_gtb].
    assert (Habs : Rabs (a + b) > 0) by (apply Rabs_pos_lt; exact Hs).
    assert (E1 : Rabs (2.0 * (a - b) / (a + b))
                 = 2 * Rabs (a - b) / Rabs (a + b)).
    { unfold Rdiv. rewrite !Rabs_mult, Rabs_inv.
      rewrite (Rabs_pos_eq 2.0) by lra. lra. }
    assert (E2 : Rabs ((a + b) / 2) = Rabs (a + b) / 2).
    { unfold Rdiv. rewrite Rabs_mult. rewrite (Rabs_pos_eq (/ 2)) by lra.
      reflexivity. }
    rewrite E1, E2.
    assert (Hcancel : 2 * Rabs (a - b) / Rabs (a + b) * Rabs (a + b)
                      = 2 * Rabs (a - b)) by (field; lra).
    assert (Hiff : 1.0e-9 < 2 * Rabs (a - b) / Rabs (a + b)
                   <-> Rabs (a - b) > 1.0e-9 * (Rabs (a + b) / 2)).
    { split; intros Hlt.
      - apply (Rmult_lt_compat_r (Rabs (a + b))) in Hlt; [|lra].
        rewrite Hcancel in Hlt. lra.
      - apply (Rmult_lt_reg_r (Rabs (a + b))); [lra|].
        rewrite Hcancel. lra. }
    destruct (Rlt_dec 1.0e-9 (2 * Rabs (a - b) / Rabs (a + b))) as [Hlt|Hge].
    + split; [intros _; apply Hiff; exact Hlt | reflexivity].
    + split; [discriminate|]. intros Hirr. apply Hiff in Hirr. contradiction.
Qed.

(** The frequency spacing of at least two finite frequency bins. *)
Lemma frequency_spacing_finite (freqs : list num) :
  Forall is_finite freqs -> (2 <= length freqs)%nat ->
  exists dmax dmin : R,
    np_max (np_diff freqs) = Ok (Finite dmax) /\
    np_min (np_diff freqs) = Ok (Finite dmin) /\
    is_finite (np_mean (np_diff freqs)) /\
    ((spacing_irregular dmax dmin /\
      frequency_spacing freqs = Ok (None, true))
     \/
     (~ spacing_irregular dmax dmin /\
      frequency_spacing freqs
      = Ok (Some (np_mean (np_diff freqs)), false))).
Proof.
  intros Hfin Hlen.
  pose proof (np_diff_finite freqs Hfin) as Hdfin.
  assert (Hne : np_diff freqs <> []).
  { intros E. apply (f_equal length) in E. rewrite length_np_diff in E.
    simpl in E. lia. }
  assert (Hne' : map to_R (np_diff freqs) <> []).
  { intros E. apply Hne. destruct (np_diff freqs); [reflexivity | discriminate]. }
  destruct (np_max_finite _ Hne') as (dmax & Hmax & _).
  destruct (np_min_finite _ Hne') as (dmin & Hmin & _).
  rewrite <- (finite_list _ Hdfin) in Hmax, Hmin.
  exists dmax, dmin.
  split; [exact Hmax|]. split; [exact Hmin|].
  split; [apply np_mean_finite; assumption|].
  unfold frequency_spacing. rewrite Hmax, Hmin, !bind_Ok.
  destruct (num_abs (relative_error (Finite dmax) (Finite dmin))
            >? Finite 1.0e-9)%num eqn:Hcheck.
  - left. split; [apply spacing_check_iff; exact Hcheck | reflexivity].
  - right. split; [|reflexivity].
    intros Hirr. apply spacing_check_iff in Hirr. congruence.
Qed.

(* --------------------------------------------------------------------- *)
(** *** An export that completes *)
(* --------------------------------------------------------------------- *)

Lemma py_index_nil {X : Type} (i : Z) : py_index (@nil X) i = Raise IndexError.
Proof.
  unfold py_index. simpl length.
  destruct (i <? 0)%Z eqn:Hi.
  - destruct (Z.leb_spec 0 (i + Z.of_nat 0)) as [H0|_]; [|reflexivity].
    apply Z.ltb_lt in Hi. lia.
  - destruct (Z.leb_spec 0 i) as [_|_]; [|reflexivity].
    destruct (Z.ltb_spec i (Z.of_nat 0)) as [Hlt|_]; [|reflexivity].
    apply Z.ltb_ge in Hi. simpl in Hlt. lia.
Qed.

Lemma export_ready_run (model : Model) (filename : option string)
    (image_nr : Z) (zoom : R) (npix_x npix_y : nat) (method : string)
    (w : world) (im : Image) (freqs : list num) :
  export_ready interpolator model image_nr zoom npix_x npix_y method im freqs ->
  w.(fs) !! target_path' model filename <> Some Directory ->
  exists (x_min x_max y_min y_max : R) (dfreq : option num) (warn : bool),
    boundaries im.(ImX) (Finite zoom) = Ok (Finite x_min, Finite x_max) /\
    boundaries im.(ImY) (Finite zoom) = Ok (Finite y_min, Finite y_max) /\
    frequency_spacing freqs = Ok (dfreq, warn) /\
    let xs := np_linspace (Finite x_min) (Finite x_max) npix_x in
    let ys := np_linspace (Finite y_min) (Finite y_max) npix_y in
    save_fits' model filename image_nr (Finite zoom) npix_x npix_y method w =
    (Ok (),
     {| fs :=
          <[target_path' model filename :=
              File (Fits
                (export_header model.(parameters).(nfreqs) npix_x npix_y
                   freqs xs ys dfreq)
                (export_cube interpolator method im xs ys
                   model.(parameters).(nfreqs) npix_x))]>
            (cleared_world (target_path' model filename)
               (resolved_world' model filename w)).(fs);
        stdout :=
          (resolved_world' model filename w).(stdout)
          ++ warning_lines warn
          ++ ["Written file to: " +:+ target_path' model filename] |}).
Proof.
  intros [Him [Hxne Hxfin] [Hyne Hyfin] Hz [Hn Hsq] Hfreqs [Hbins Hffin] Hip]
         Hfree.
  subst npix_y.
  assert (Hxne' : map to_R im.(ImX) <> []).
  { intros E. apply Hxne. destruct im.(ImX); [reflexivity | discriminate]. }
  assert (Hyne' : map to_R im.(ImY) <> []).
  { intros E. apply Hyne. destruct im.(ImY); [reflexivity | discriminate]. }
  destruct (boundaries_finite _ zoom Hxne' Hz)
    as (xlo & xhi & _ & _ & _ & _ & Hbx).
  destruct (boundaries_finite _ zoom Hyne' Hz)
    as (ylo & yhi & _ & _ & _ & _ & Hby).
  rewrite <- (finite_list _ Hxfin) in Hbx.
  rewrite <- (finite_list _ Hyfin) in Hby.
  destruct (frequency_spacing_finite freqs Hffin Hbins)
    as (dmax & dmin & _ & _ & Hmean & Hspacing).
  assert (Hsp : exists dfreq warn,
             frequency_spacing freqs = Ok (dfreq, warn) /\
             header_float_opt dfreq = Ok dfreq).
  { destruct Hspacing as [[_ E]|[_ E]]; rewrite E.
    - exists None, true. split; reflexivity.
    - eexists _, false. split; [reflexivity|]. unfold header_float_opt.
      rewrite (header_float_finite _ Hmean). reflexivity. }
  destruct Hsp as (dfreq & warn & Hfs & Hdf).
  exists (xlo / zoom), (xhi / zoom), (ylo / zoom), (yhi / zoom), dfreq, warn.
  split; [exact Hbx|]. split; [exact Hby|]. split; [exact Hfs|].
  cbv zeta. unfold export_header, export_cube.
  eapply (save_fits_run model filename image_nr (Finite zoom) npix_x npix_x
            method w im).
  - intros E. rewrite E, py_index_nil in Him. discriminate.
  - exact Him.
  - exact Hbx.
  - exact Hby.
  - exact Hfreqs.
  - exact Hfs.
  - apply interpolate_cube_square; [apply length_np_linspace ..|exact Hip].
  - apply header_float_finite, np_mean_finite; [exact Hffin|].
    destruct freqs; [simpl in Hbins; lia | discriminate].
  - apply header_float_finite, pixel_size_finite. exact Hn.
  - apply header_float_finite, pixel_size_finite. exact Hn.
  - exact Hdf.
  - exact Hfree.
Qed.

(* --------------------------------------------------------------------- *)
(** *** The properties of the exporter *)
(* --------------------------------------------------------------------- *)

(** C8.  On a model without images [save_fits] prints its notice and
    returns; the file system is left as it was: no directory is created
    and no file is removed or written. *)
Theorem save_fits_no_images (model : Model) (filename : option string)
    (image_nr : Z) (zoom : num) (npix_x npix_y : nat) (method : string)
    (w : world) :
  model.(images) = [] ->
  save_fits' model filename image_nr zoom npix_x npix_y method w =
  (Ok (), {| fs := w.(fs); stdout := w.(stdout) ++ ["No images in model."] |}).
Proof.
  intros Himages. unfold save_fits. rewrite Himages. reflexivity.
Qed.



(** One run of [save_fits] in which the interpolation loop raises: the
    older file is gone and nothing is written. *)
Lemma save_fits_run_loop_raises (model : Model) (filename : option string)
    (image_nr : Z) (zoom : num) (npix_x npix_y : nat) (method : string)
    (w : world) (im : Image) (x_min x_max y_min y_max : num)
    (freqs : list num) (dfreq : option num) (warn : bool) (e : exn) :
  model.(images) <> [] ->
  py_index model.(images) image_nr = Ok im ->
  boundaries im.(ImX) zoom = Ok (x_min, x_max) ->
  boundaries im.(ImY) zoom = Ok (y_min, y_max) ->
  py_index model.(nu) 0 = Ok freqs ->
  frequency_spacing freqs = Ok (dfreq, warn) ->
  interpolate_cube' im.(ImX) im.(ImY) im.(I)
    (np_linspace x_min x_max npix_x) (np_linspace y_min y_max npix_y)
    model.(parameters).(nfreqs) npix_x npix_y method = Raise e ->
  save_fits' model filename image_nr zoom npix_x npix_y method w =
  (Raise e,
   {| fs := (cleared_world (target_path' model filename)
               (resolved_world' model filename w)).(fs);
      stdout := (resolved_world' model filename w).(stdout)
                ++ warning_lines warn |}).
Proof.
  intros Hne Him Hbx Hby Hfreqs Hspacing Hcube.
  unfold save_fits. rewrite (no_images_guard model Hne).
  rewrite (IO_bind_run _ _ _ _ _ (resolve_filename_run model filename w)).
  set (path := target_path' model filename).
  set (w1 := resolved_world' model filename w).
  rewrite (IO_bind_run _ _ _ _ _ (isfile_run path w1)). cbv beta.
  rewrite (IO_bind_run _ _ _ _ _ (remove_run path w1)).
  set (w2 := cleared_world path w1).
  unfold lift, mbind, IO_bind.
  rewrite Him, Hbx, Hby, Hfreqs, Hspacing.
  assert (Hprint :
    (if warn
     then print "WARNING: No regularly spaced frequency bins!"
     else mret ()) w2
    = (Ok (), {| fs := w2.(fs); stdout := w2.(stdout) ++ warning_lines warn |})).
  { destruct warn; unfold print, mret, IO_ret, warning_lines.
    - reflexivity.
    - rewrite app_nil_r. destruct w2; reflexivity. }
  rewrite Hprint, Hcube. unfold w2. rewrite cleared_world_stdout.
  reflexivity.
Qed.

(** The cube of an export that completes: [nfreqs] square slices, slice
    [f] made from column [f] of the intensities alone, and entry
    [[f][a][b]] the interpolant of bin [f] at the point [(xs[b], ys[a])]:
    the first pixel index runs over [ys], the second over [xs]. *)
Lemma save_fits_cube_layout (model : Model) (filename : option string)
    (image_nr : Z) (zoom : R) (npix_x npix_y : nat) (method : string)
    (w : world) (im : Image) (freqs : list num) :
  export_ready interpolator model image_nr zoom npix_x npix_y method im freqs ->
  w.(fs) !! target_path' model filename <> Some Directory ->
  exists (x_min x_max y_min y_max : R) (hdr : Header) (cube : Cube)
         (w' : world),
    boundaries im.(ImX) (Finite zoom) = Ok (Finite x_min, Finite x_max) /\
    boundaries im.(ImY) (Finite zoom) = Ok (Finite y_min, Finite y_max) /\
    save_fits' model filename image_nr (Finite zoom) npix_x npix_y method w
    = (Ok (), w') /\
    w'.(fs) !! target_path' model filename = Some (File (Fits hdr cube)) /\
    cube.(cube_shape) = (model.(parameters).(nfreqs), npix_x, npix_y) /\
    length cube.(slices) = model.(parameters).(nfreqs) /\
    forall (f a b : nat) (x y : num),
      (f < model.(parameters).(nfreqs))%nat ->
      np_linspace (Finite x_min) (Finite x_max) npix_x !! b = Some x ->
      np_linspace (Finite y_min) (Finite y_max) npix_y !! a = Some y ->
      exists (slice : array2) (row values : list num)
             (ip : num -> num -> num),
        column im.(I) f = Ok values /\
        interpolator method im.(ImX) im.(ImY) values = Ok ip /\
        cube.(slices) !! f = Some slice /\
        slice.(shape2) = (npix_x, npix_y) /\
        slice.(rows2) !! a = Some row /\
        row !! b = Some (ip x y).
Proof.
  intros Hready Hfree.
  destruct (export_ready_run model filename image_nr zoom npix_x npix_y
              method w im freqs Hready Hfree)
    as (x_min & x_max & y_min & y_max & dfreq & warn & Hbx & Hby & _ & Hrun).
  cbv zeta in Hrun.
  destruct Hready as [_ _ _ _ [Hn Hsq] _ _ Hip]. subst npix_y.
  exists x_min, x_max, y_min, y_max. eexists _, _, _.
  split; [exact Hbx|]. split; [exact Hby|]. split; [exact Hrun|].
  cbn [fs]. split; [apply lookup_insert_eq|].
  cbn [export_cube cube_shape slices].
  split; [reflexivity|].
  split; [rewrite length_map; apply length_range|].
  intros f a b x y Hf Hx Hy.
  destruct (Hip f Hf) as (values & ip & Hcol & Hinterp).
  assert (Ha : (a < npix_x)%nat).
  { apply lookup_lt_Some in Hy. rewrite length_np_linspace in Hy. exact Hy. }
  assert (Hb : (b < npix_x)%nat).
  { apply lookup_lt_Some in Hx. rewrite length_np_linspace in Hx. exact Hx. }
  eexists _, _, values, ip.
  split; [exact Hcol|]. split; [exact Hinterp|].
  split; [apply lookup_map_range; exact Hf|].
  cbn [grid_slice shape2 rows2].
  split; [reflexivity|].
  split; [apply lookup_map_range; exact Ha|].
  rewrite lookup_map_range by exact Hb.
  unfold bin_interpolant. rewrite Hcol, Hinterp.
  rewrite (nth_lookup_eq _ _ _ NaN Hx), (nth_lookup_eq _ _ _ NaN Hy).
  reflexivity.
Qed.

(** On a grid that is not square, with at least one frequency bin that
    can be interpolated, [save_fits] raises [ValueError] at the first
    assignment [zs[f] = ...], after the older file has been removed. *)
Lemma save_fits_rectangular_grid (model : Model) (filename : option string)
    (image_nr : Z) (zoom : R) (npix_x npix_y : nat) (method : string)
    (w : world) (im : Image) (freqs values : list num)
    (ip : num -> num -> num) :
  py_index model.(images) image_nr = Ok im ->
  im.(ImX) <> [] /\ Forall is_finite im.(ImX) ->
  im.(ImY) <> [] /\ Forall is_finite im.(ImY) ->
  zoom <> 0 ->
  py_index model.(nu) 0 = Ok freqs ->
  (2 <= length freqs)%nat /\ Forall is_finite freqs ->
  (0 < model.(parameters).(nfreqs))%nat ->
  column im.(I) 0 = Ok values ->
  interpolator method im.(ImX) im.(ImY) values = Ok ip ->
  npix_x <> npix_y ->
  exists warn : bool,
    save_fits' model filename image_nr (Finite zoom) npix_x npix_y method w =
    (Raise ValueError,
     {| fs := (cleared_world (target_path' model filename)
                 (resolved_world' model filename w)).(fs);
        stdout := (resolved_world' model filename w).(stdout)
                  ++ warning_lines warn |}).
Proof.
  intros Him [Hxne Hxfin] [Hyne Hyfin] Hz Hfreqs [Hbins Hffin] Hnf Hcol Hip Hne.
  assert (Hxne' : map to_R im.(ImX) <> []).
  { intros E. apply Hxne. destruct im.(ImX); [reflexivity | discriminate]. }
  assert (Hyne' : map to_R im.(ImY) <> []).
  { intros E. apply Hyne. destruct im.(ImY); [reflexivity | discriminate]. }
  destruct (boundaries_finite _ zoom Hxne' Hz)
    as (xlo & xhi & _ & _ & _ & _ & Hbx).
  destruct (boundaries_finite _ zoom Hyne' Hz)
    as (ylo & yhi & _ & _ & _ & _ & Hby).
  rewrite <- (finite_list _ Hxfin) in Hbx.
  rewrite <- (finite_list _ Hyfin) in Hby.
  destruct (frequency_spacing_finite freqs Hffin Hbins)
    as (dmax & dmin & _ & _ & _ & Hspacing).
  assert (Hsp : exists dfreq warn, frequency_spacing freqs = Ok (dfreq, warn)).
  { destruct Hspacing as [[_ E]|[_ E]]; rewrite E; eauto. }
  destruct Hsp as (dfreq & warn & Hfs).
  exists warn.
  eapply (save_fits_run_loop_raises model filename image_nr (Finite zoom)
            npix_x npix_y method w im).
  - intros E. rewrite E, py_index_nil in Him. discriminate.
  - exact Him.
  - exact Hbx.
  - exact Hby.
  - exact Hfreqs.
  - exact Hfs.
  - eapply interpolate_cube_rectangular; eauto using length_np_linspace.
Qed.

End ExporterFacts.

(* ===================================================================== *)
(** ** The regularity check on steps that sum to zero *)
(* ===================================================================== *)

(** The two ways [relative_error] divides by zero, and what the test on
    line 193 makes of each. *)
Lemma zero_sum_cases (freqs : list num) (dmax dmin : R) :
  np_max (np_diff freqs) = Ok (Finite dmax) ->
  np_min (np_diff freqs) = Ok (Finite dmin) ->
  dmax + dmin = 0 ->
  (dmax = dmin ->
     relative_error (Finite dmax) (Finite dmin) = NaN /\
     classified_uniform freqs) /\
  (dmax <> dmin ->
     num_abs (relative_error (Finite dmax) (Finite dmin)) = PInf /\
     frequency_spacing freqs = Ok (None, true)).
Proof.
  intros Hmax Hmin Hsum.
  unfold classified_uniform, frequency_spacing.
  rewrite Hmax, Hmin, !bind_Ok, relative_error_finite, Hsum.
  cbn [num_div]. destruct (Req_dec_T 0 0) as [_|N]; [|contradiction].
  split; intros Hd.
  - destruct (Req_dec_T (2.0 * (dmax - dmin)) 0) as [_|N]; [|lra].
    split; reflexivity.
  - destruct (Req_dec_T (2.0 * (dmax - dmin)) 0) as [E|_]; [lra|].
    destruct (Rlt_dec 0 (2.0 * (dmax - dmin))); split; reflexivity.
Qed.

Lemma constant_frequencies_steps :
  np_max (np_diff [Finite 5; Finite 5; Finite 5]) = Ok (Finite 0) /\
  np_min (np_diff [Finite 5; Finite 5; Finite 5]) = Ok (Finite 0).
Proof.
  cbn [np_diff np_max np_min fold_left num_sub num_opp num_add].
  rewrite num_max_finite, num_min_finite.
  replace (5 + Ropp 5) with 0 by lra.
  rewrite Rmax_left, Rmin_left by lra. split; reflexivity.
Qed.

(** C10, as stated, fails: for the constant frequencies [5, 5, 5] both
    extreme steps are zero, the relative error is [NaN], the comparison
    with the tolerance is false, and the spacing is taken as uniform. *)
Lemma constant_frequencies_uniform :
  ~ zero_sum_not_uniform [Finite 5; Finite 5; Finite 5].
Proof.
  intros Hclaim.
  destruct constant_frequencies_steps as [Hmax Hmin].
  destruct (Hclaim 0 0 Hmax Hmin) as [_ Hnot]; [lra|].
  apply Hnot.
  apply (zero_sum_cases _ 0 0 Hmax Hmin); lra.
Qed.

(** C10, as amended.  [relative_error(a, b)] is [2*(a-b)/(a+b)] with no
    guard, and the regularity check applies it to the largest and the
    smallest step.  When these sum to zero the division is by zero and the
    relative error is [NaN] or infinite.  If both steps are zero (a
    constant frequency array) it is [NaN], the comparison with the
    tolerance is false and the spacing is taken as uniform; otherwise it
    is infinite and the spacing is taken as not uniform. *)
Theorem relative_error_zero_sum (freqs : list num) (dmax dmin : R) :
  np_max (np_diff freqs) = Ok (Finite dmax) ->
  np_min (np_diff freqs) = Ok (Finite dmin) ->
  dmax + dmin = 0 ->
  (forall a b : num,
     relative_error a b = (Finite 2.0 * (a - b) / (a + b))%num) /\
  is_undefined (relative_error (Finite dmax) (Finite dmin)) /\
  (dmax = dmin ->
     relative_error (Finite dmax) (Finite dmin) = NaN /\
     classified_uniform freqs) /\
  (dmax <> dmin ->
     num_abs (relative_error (Finite dmax) (Finite dmin)) = PInf /\
     frequency_spacing freqs = Ok (None, true)).
Proof.
  intros Hmax Hmin Hsum.
  split; [reflexivity|].
  split.
  - rewrite relative_error_finite, Hsum. apply num_div_zero.
  - apply zero_sum_cases; assumption.
Qed.

Lemma relative_error_zero_sum_witness :
  relative_error (Finite 0) (Finite 0) = NaN /\
  classified_uniform [Finite 5; Finite 5; Finite 5].
Proof.
  destruct constant_frequencies_steps as [Hmax Hmin].
  destruct (relative_error_zero_sum [Finite 5; Finite 5; Finite 5] 0 0
              Hmax Hmin) as (_ & _ & Hzero & _).
  - lra.
  - apply Hzero. reflexivity.
Defined.

(* ===================================================================== *)
(** ** The exporter on a small model *)
(* ===================================================================== *)

Lemma example_target :
  target_path example_abspath example_dirname example_model None
  = "/work/images/image.fits".
Proof. reflexivity. Qed.

Lemma example_world_target :
  example_world.(fs) !! "/work/images/image.fits" = Some (File (Bytes "old")).
Proof. reflexivity. Qed.

Lemma example_interpolation (f : nat) :
  (f < 3)%nat ->
  exists values ip,
    column example_image.(I) f = Ok values /\
    nearest_interpolator "nearest" example_image.(ImX) example_image.(ImY)
      values = Ok ip.
Proof.
  intros Hf.
  destruct f as [|[|[|f]]]; [| | |lia]; eexists _, _; split; reflexivity.
Qed.

Lemma example_ready (npix : nat) :
  (2 <= npix)%nat ->
  export_ready nearest_interpolator example_model (-1) 1.3 npix npix
    "nearest" example_image example_freqs.
Proof.
  intros Hn. constructor.
  - reflexivity.
  - split; [discriminate | repeat constructor].
  - split; [discriminate | repeat constructor].
  - lra.
  - split; [exact Hn | reflexivity].
  - reflexivity.
  - split; [simpl; lia | repeat constructor].
  - apply example_interpolation.
Qed.



Lemma bounding_box_scaled_witness :
  exists lo hi : R,
    boundaries [Finite 1; Finite 3] (Finite 2)
    = Ok (Finite (lo / 2), Finite (hi / 2)) /\
    hi / 2 - lo / 2 = (hi - lo) / 2 /\
    (lo / 2 + hi / 2) / 2 = (lo + hi) / 2 / 2.
Proof.
  destruct (bounding_box_scaled [1; 3] 2 2)
    as (lo & hi & _ & _ & Hb & _ & _ & Hext & Hcentre & _).
  - discriminate.
  - lra.
  - lia.
  - exists lo, hi. split; [exact Hb|]. split; [exact Hext | exact Hcentre].
Defined.

Lemma save_fits_no_images_witness :
  save_fits example_abspath example_dirname nearest_interpolator
    empty_model None (-1) (Finite 1.3) 300 300 "nearest" example_world
  = (Ok (), {| fs := example_world.(fs); stdout := ["No images in model."] |}).
Proof.
  apply (save_fits_no_images example_abspath example_dirname
           nearest_interpolator empty_model None (-1) (Finite 1.3) 300 300
           "nearest" example_world).
  reflexivity.
Defined.



Lemma example_boundaries :
  boundaries example_image.(ImX) (Finite 1.3)
  = Ok (Finite (-1 / 1.3), Finite (1 / 1.3)) /\
  boundaries example_image.(ImY) (Finite 1.3)
  = Ok (Finite (-2 / 1.3), Finite (2 / 1.3)).
Proof.
  unfold boundaries, example_image.
  cbn [ImX ImY np_min np_max fold_left].
  rewrite !num_max_finite, !num_min_finite.
  rewrite !Rmax_right, !Rmin_left by lra.
  rewrite !bind_Ok.
  rewrite !num_div_finite by lra. split; reflexivity.
Qed.

(** Nearest-neighbour interpolation of the first frequency bin of the
    example: the sample at [(-1, -2)] has the value 1 and the sample at
    [(1, 2)] the value 4. *)
Lemma example_nearest :
  exists ip : num -> num -> num,
    nearest_interpolator "nearest" example_image.(ImX) example_image.(ImY)
      [Finite 1; Finite 4] = Ok ip /\
    ip (Finite (1 / 1.3)) (Finite (-2 / 1.3)) = Finite 1 /\
    ip (Finite (-1 / 1.3)) (Finite (2 / 1.3)) = Finite 4.
Proof.
  eexists. split; [reflexivity|].
  cbn [nearest_value distance2 num_sub num_opp num_add num_mul num_gtb].
  split.
  - destruct (Rlt_dec _ _) as [Hlt|_]; [exfalso; lra | reflexivity].
  - destruct (Rlt_dec _ _) as [_|Hge]; [reflexivity | exfalso; lra].
Qed.

(** C1 on the example model.  With 2 by 3 pixels the export raises
    [ValueError] at the first assignment to the cube, after the older
    file has been removed.  With 2 by 2 pixels the export completes and
    entry [[0][0][1]] of the cube is 1, the value nearest to the point
    [(x_max, y_min)]; the value nearest to [(x_min, y_max)], the point of
    x-pixel 0 and y-pixel 1, is 4. *)
Theorem cube_axes_example :
  (exists w' : world,
     save_fits example_abspath example_dirname nearest_interpolator
       example_model None (-1) (Finite 1.3) 2 3 "nearest" example_world
     = (Raise ValueError, w') /\
     w'.(fs) !! "/work/images/image.fits" = None)
  /\
  (exists (hdr : Header) (cube : Cube) (w' : world) (slice : array2)
          (row : list num) (ip : num -> num -> num),
     save_fits example_abspath example_dirname nearest_interpolator
       example_model None (-1) (Finite 1.3) 2 2 "nearest" example_world
     = (Ok (), w') /\
     w'.(fs) !! "/work/images/image.fits" = Some (File (Fits hdr cube)) /\
     cube.(cube_shape) = (3, 2, 2)%nat /\
     cube.(slices) !! 0%nat = Some slice /\
     slice.(rows2) !! 0%nat = Some row /\
     row !! 1%nat = Some (Finite 1) /\
     nearest_interpolator "nearest" example_image.(ImX) example_image.(ImY)
       [Finite 1; Finite 4] = Ok ip /\
     ip (Finite (-1 / 1.3)) (Finite (2 / 1.3)) = Finite 4).
Proof.
  split.
  - edestruct (save_fits_rectangular_grid example_abspath example_dirname
                nearest_interpolator example_model None (-1) 1.3 2 3
                "nearest" example_world example_image example_freqs
                [Finite 1; Finite 4]) as [warn Hrun].
    + reflexivity.
    + split; [discriminate | repeat constructor].
    + split; [discriminate | repeat constructor].
    + lra.
    + reflexivity.
    + split; [simpl; lia | repeat constructor].
    + simpl. lia.
    + reflexivity.
    + reflexivity.
    + lia.
    + eexists. split; [exact Hrun|]. reflexivity.
  - destruct (save_fits_cube_layout example_abspath example_dirname
                nearest_interpolator example_model None (-1) 1.3 2 2
                "nearest" example_world example_image example_freqs)
      as (x_min & x_max & y_min & y_max & hdr & cube & w' & Hbx & Hby & Hrun
          & Hfile & Hshape & _ & Hentry).
    + apply example_ready. lia.
    + rewrite example_target, example_world_target. discriminate.
    + destruct example_boundaries as [Hbx' Hby'].
      rewrite Hbx' in Hbx. rewrite Hby' in Hby.
      injection Hbx as <- <-. injection Hby as <- <-.
      destruct (np_linspace_ends (-1 / 1.3) (1 / 1.3) 2) as [_ Hx]; [lia|].
      destruct (np_linspace_ends (-2 / 1.3) (2 / 1.3) 2) as [Hy _]; [lia|].
      destruct (Hentry 0%nat 0%nat 1%nat _ _ ltac:(simpl; lia) Hx Hy)
        as (slice & row & values & ip & Hcol & Hip & Hslice & _ & Hrow & Hcell).
      injection Hcol as <-.
      destruct example_nearest as (ip' & Hip' & Hnear & Hfar).
      rewrite Hip' in Hip. injection Hip as <-.
      exists hdr, cube, w', slice, row, ip'.
      split; [exact Hrun|]. split; [exact Hfile|]. split; [exact Hshape|].
      split; [exact Hslice|]. split; [exact Hrow|].
      split; [rewrite Hcell, Hnear; reflexivity|].
      split; [exact Hip' | exact Hfar].
Qed.

(* ===================================================================== *)
(** ** The timer *)
(* ===================================================================== *)

Lemma py_sum_snoc (l : list num) (x : num) :
  py_sum (l ++ [x]) = (py_sum l + x)%num.
Proof. unfold py_sum. rewrite fold_left_app. reflexivity. Qed.

Lemma Timer_stop_started (self : Timer) (l : list num) (a b : num) :
  self.(starts) = l ++ [a] ->
  Timer_stop self b =
  (Ok (),
   {| name := self.(name);
      starts := self.(starts);
      stops := self.(stops) ++ [b];
      intervals := self.(intervals) ++ [(b - a)%num];
      total := (self.(total) + (b - a))%num |}).
Proof.
  intros Hstarts. unfold Timer_stop. cbn [name starts stops intervals total].
  rewrite py_index_last, bind_Ok, Hstarts, py_index_last, bind_Ok.
  cbn [mret result_ret]. rewrite py_index_last. reflexivity.
Qed.

(** X1.  A start followed by a stop, on any timer, adds one interval, the
    difference of the two readings of the clock, and adds that interval to
    the total. *)
Theorem Timer_start_stop (self : Timer) (a b : num) :
  Timer_stop (Timer_start self a) b =
  (Ok (),
   {| name := self.(name);
      starts := self.(starts) ++ [a];
      stops := self.(stops) ++ [b];
      intervals := self.(intervals) ++ [(b - a)%num];
      total := (self.(total) + (b - a))%num |}).
Proof.
  rewrite (Timer_stop_started (Timer_start self a) self.(starts) a b)
    by reflexivity.
  reflexivity.
Qed.

Lemma Timer_stop_empty (self : Timer) (now : num) :
  self.(starts) = [] ->
  Timer_stop self now =
  (Raise IndexError,
   {| name := self.(name);
      starts := [];
      stops := self.(stops) ++ [now];
      intervals := self.(intervals);
      total := self.(total) |}).
Proof.
  intros Hstarts. unfold Timer_stop. cbn [name starts stops intervals total].
  rewrite py_index_last, bind_Ok, Hstarts, py_index_nil. reflexivity.
Qed.

(** X2.  [stop] on a timer that was never started raises [IndexError], and the
    reading of the clock has been appended to [stops] all the same: there
    is then one stop more than there are intervals. *)
Theorem Timer_stop_unstarted (self : Timer) (now : num) :
  self.(starts) = [] ->
  length self.(intervals) = length self.(stops) ->
  exists self' : Timer,
    Timer_stop self now = (Raise IndexError, self') /\
    self'.(stops) = self.(stops) ++ [now] /\
    self'.(intervals) = self.(intervals) /\
    self'.(total) = self.(total) /\
    length self'.(stops) = S (length self'.(intervals)).
Proof.
  intros Hstarts Hlen. eexists.
  split; [apply Timer_stop_empty; exact Hstarts|].
  cbn [stops intervals total]. repeat split.
  rewrite length_app, Hlen. simpl. lia.
Qed.

Lemma Timer_stop_unstarted_witness :
  exists self' : Timer,
    Timer_stop (Timer_init "solve") (Finite 1) = (Raise IndexError, self') /\
    self'.(stops) = [Finite 1].
Proof.
  destruct (Timer_stop_unstarted (Timer_init "solve") (Finite 1))
    as (self' & Hstop & Hstops & _); try reflexivity.
  exists self'. split; [exact Hstop | exact Hstops].
Defined.

Lemma Timer_stop_cases (self : Timer) (now : num) :
  (self.(starts) = [] /\ fst (Timer_stop self now) = Raise IndexError) \/
  (exists l a, self.(starts) = l ++ [a] /\
     Timer_stop self now =
     (Ok (),
      {| name := self.(name);
         starts := self.(starts);
         stops := self.(stops) ++ [now];
         intervals := self.(intervals) ++ [(now - a)%num];
         total := (self.(total) + (now - a))%num |})).
Proof.
  destruct (self.(starts)) as [|x l] eqn:Hs.
  - left. split; [reflexivity|].
    rewrite (Timer_stop_empty self now Hs). reflexivity.
  - right.
    destruct (exists_last (l := x :: l)) as (l' & a & E); [discriminate|].
    exists l', a. split; [exact E|].
    rewrite <- Hs. apply (Timer_stop_started self l' a now).
    rewrite Hs. exact E.
Qed.

(** What every sequence of calls keeps, as long as none raises. *)
Lemma Timer_calls_invariant (calls : list Timer_call) (self self' : Timer) :
  self.(total) = py_sum self.(intervals) ->
  length self.(intervals) = length self.(stops) ->
  Timer_calls self calls = (Ok (), self') ->
  self'.(total) = py_sum self'.(intervals) /\
  length self'.(intervals) = length self'.(stops).
Proof.
  revert self. induction calls as [|[t|t] rest IH]; intros self Htot Hlen Hrun.
  - injection Hrun as <-. split; assumption.
  - cbn [Timer_calls] in Hrun. apply (IH (Timer_start self t)); assumption.
  - cbn [Timer_calls] in Hrun.
    destruct (Timer_stop_cases self t) as [[_ Hraise]|(l & a & _ & Hstop)].
    + destruct (Timer_stop self t) as [[u|e] s]; simpl in Hraise;
        [discriminate | discriminate].
    + rewrite Hstop in Hrun. apply IH in Hrun; [exact Hrun | |].
      * cbn [total intervals]. rewrite py_sum_snoc, Htot. reflexivity.
      * cbn [intervals stops]. rewrite !length_app, Hlen. reflexivity.
Qed.

(** X3.  After any sequence of [start] and [stop] calls on a new timer in which
    no call raised, [total] is the sum of [intervals], and there is one
    interval for every stop. *)
Theorem Timer_total_is_sum (name : string) (calls : list Timer_call)
    (self : Timer) :
  Timer_calls (Timer_init name) calls = (Ok (), self) ->
  self.(total) = py_sum self.(intervals) /\
  length self.(intervals) = length self.(stops).
Proof.
  apply Timer_calls_invariant.
  - cbn [Timer_init total intervals]. unfold py_sum. simpl. f_equal. lra.
  - reflexivity.
Qed.

Lemma Timer_total_is_sum_witness :
  exists self : Timer,
    Timer_calls (Timer_init "solve")
      [Start (Finite 1); Stop (Finite 3); Start (Finite 4); Stop (Finite 9)]
    = (Ok (), self) /\
    self.(total) = py_sum self.(intervals) /\
    length self.(intervals) = 2%nat.
Proof.
  eexists. split; [reflexivity|].
  split; [|reflexivity].
  apply (Timer_total_is_sum "solve"
           [Start (Finite 1); Stop (Finite 3); Start (Finite 4);
            Stop (Finite 9)]).
  reflexivity.
Defined.

Lemma Timer_calls_nonneg (calls : list Timer_call) (self self' : Timer)
    (t0 : R) :
  Forall (is_at_most t0) self.(starts) ->
  Forall is_nonneg self.(intervals) ->
  is_nonneg self.(total) ->
  monotonic_from t0 calls ->
  Timer_calls self calls = (Ok (), self') ->
  Forall is_nonneg self'.(intervals) /\ is_nonneg self'.(total).
Proof.
  revert self t0.
  induction calls as [|[t|t] rest IH];
    intros self t0 Hstarts Hints Htot Hmono Hrun.
  - injection Hrun as <-. split; assumption.
  - cbn [Timer_calls] in Hrun.
    destruct Hmono as (r & Hr & Hle & Hrest). cbn [reading] in Hr. subst t.
    apply (IH (Timer_start self (Finite r)) r); try assumption.
    cbn [Timer_start starts]. apply Forall_app. split.
    + eapply Forall_impl; [exact Hstarts|].
      intros [x| | |] Hx; simpl in *; try contradiction. lra.
    + constructor; [simpl; lra | constructor].
  - cbn [Timer_calls] in Hrun.
    destruct Hmono as (r & Hr & Hle & Hrest). cbn [reading] in Hr. subst t.
    destruct (Timer_stop_cases self (Finite r))
      as [[_ Hraise]|(l & a & Hl & Hstop)].
    + destruct (Timer_stop self (Finite r)) as [[u|e] s]; simpl in Hraise;
        [discriminate | discriminate].
    + rewrite Hstop in Hrun.
      assert (Ha : is_at_most t0 a).
      { rewrite Hl in Hstarts. apply Forall_app in Hstarts.
        destruct Hstarts as [_ Hlast]. apply Forall_inv in Hlast.
        exact Hlast. }
      destruct a as [ra| | |]; simpl in Ha; try contradiction.
      apply (IH _ r) in Hrun; try assumption.
      * cbn [starts].
        eapply Forall_impl; [exact Hstarts|].
        intros [x| | |] Hx; simpl in *; try contradiction. lra.
      * cbn [intervals]. apply Forall_app. split; [exact Hints|].
        constructor; [simpl; lra | constructor].
      * cbn [total]. destruct (total self) as [T| | |]; simpl in Htot;
          try contradiction. simpl. lra.
Qed.

(** X4.  With readings of the clock that are finite and never go back, no
    sequence of calls on a new timer gives a negative interval or a
    negative total. *)
Theorem Timer_never_negative (name : string) (calls : list Timer_call)
    (self : Timer) (t0 : R) :
  monotonic_from t0 calls ->
  Timer_calls (Timer_init name) calls = (Ok (), self) ->
  Forall is_nonneg self.(intervals) /\ is_nonneg self.(total).
Proof.
  intros Hmono Hrun.
  apply (Timer_calls_nonneg calls (Timer_init name) self t0);
    try assumption.
  - constructor.
  - constructor.
  - simpl. lra.
Qed.

Lemma Timer_never_negative_witness :
  exists self : Timer,
    Timer_calls (Timer_init "solve")
      [Start (Finite 1); Stop (Finite 3); Stop (Finite 4)] = (Ok (), self) /\
    Forall is_nonneg self.(intervals) /\ is_nonneg self.(total).
Proof.
  eexists. split; [reflexivity|].
  apply (Timer_never_negative "solve"
           [Start (Finite 1); Stop (Finite 3); Stop (Finite 4)] _ 0).
  - simpl. exists 1. split; [reflexivity|]. split; [lra|].
    exists 3. split; [reflexivity|]. split; [lra|].
    exists 4. split; [reflexivity|]. split; [lra | exact Logic.I].
  - reflexivity.
Defined.

(* ===================================================================== *)
(** ** The exporter: what it touches and how it fails *)
(* ===================================================================== *)

Section ExporterEdges.

Variable os_path_abspath : string -> string.
Variable os_path_dirname : string -> string.
Variable interpolator :
  string -> list num -> list num -> list num -> result (num -> num -> num).

Local Abbreviation target_path' := (target_path os_path_abspath os_path_dirname).
Local Abbreviation resolved_world' :=
  (resolved_world os_path_abspath os_path_dirname).
Local Abbreviation images_dir' := (images_dir os_path_abspath os_path_dirname).
Local Abbreviation save_fits' :=
  (save_fits os_path_abspath os_path_dirname interpolator).

Ltac raise_branch := left; eexists; split; reflexivity.

(** Every run on a model with images ends in one of two ways: an
    exception, with the file system as it was after the older file was
    removed, or the new file written over that file system. *)
Lemma save_fits_outcome (model : Model) (filename : option string)
    (image_nr : Z) (zoom : num) (npix_x npix_y : nat) (method : string)
    (w : world) :
  model.(images) <> [] ->
  export_outcome (target_path' model filename)
    (cleared_world (target_path' model filename)
       (resolved_world' model filename w))
    (save_fits' model filename image_nr zoom npix_x npix_y method w).
Proof.
  intros Hne.
  unfold save_fits. rewrite (no_images_guard model Hne).
  rewrite (IO_bind_run _ _ _ _ _
             (resolve_filename_run os_path_abspath os_path_dirname
                model filename w)).
  set (path := target_path' model filename).
  set (w1 := resolved_world' model filename w).
  rewrite (IO_bind_run _ _ _ _ _ (isfile_run path w1)). cbv beta.
  rewrite (IO_bind_run _ _ _ _ _ (remove_run path w1)).
  set (w2 := cleared_world path w1).
  unfold lift, mbind, IO_bind, export_outcome.
  destruct (py_index (images model) image_nr) as [im|e]; [|raise_branch].
  destruct (boundaries (ImX im) zoom) as [[x_min x_max]|e]; [|raise_branch].
  destruct (boundaries (ImY im) zoom) as [[y_min y_max]|e]; [|raise_branch].
  destruct (py_index (nu model) 0) as [freqs|e]; [|raise_branch].
  destruct (frequency_spacing freqs) as [[dfreq warn]|e]; [|raise_branch].
  set (w3 := {| fs := w2.(fs); stdout := w2.(stdout) ++ warning_lines warn |}).
  assert (Hprint :
    (if warn
     then print "WARNING: No regularly spaced frequency bins!"
     else mret ()) w2 = (Ok (), w3)).
  { destruct warn; unfold print, mret, IO_ret, w3, warning_lines.
    - reflexivity.
    - rewrite app_nil_r. destruct w2; reflexivity. }
  rewrite Hprint.
  destruct (interpolate_cube _ _ _ _ _ _ _ _ _ _) as [zs|e]; [|raise_branch].
  destruct (header_float (np_mean freqs)) as [centfreq|e]; [|raise_branch].
  destruct (header_float (np_mean (np_diff (np_linspace x_min x_max npix_x))))
    as [dpix_x|e]; [|raise_branch].
  destruct (header_float (np_mean (np_diff (np_linspace y_min y_max npix_y))))
    as [dpix_y|e]; [|raise_branch].
  destruct (header_float_opt dfreq) as [dfreq'|e]; [|raise_branch].
  unfold fits_writeto. cbn [fs stdout w3].
  destruct (w2.(fs) !! path) as [n|] eqn:Hpath; [raise_branch|].
  right. split; [reflexivity|]. split; [reflexivity|].
  eexists _, _. reflexivity.
Qed.

Lemma cleared_world_other (path p : string) (w : world) :
  p <> path -> (cleared_world path w).(fs) !! p = w.(fs) !! p.
Proof.
  intros Hp. unfold cleared_world.
  destruct (w.(fs) !! path) as [[|payload]|]; try reflexivity.
  simpl. apply lookup_delete_ne. congruence.
Qed.

Lemma images_dir_not_target (model : Model) :
  images_dir' model <> images_dir' model +:+ "image.fits".
Proof.
  intros E. symmetry in E. revert E. apply string_app_neq. discriminate.
Qed.

Lemma resolved_world_same (model : Model) (filename : option string)
    (w : world) :
  falsy filename = false \/ is_Some (w.(fs) !! images_dir' model) ->
  resolved_world' model filename w = w.
Proof.
  intros [Hf|[n Hn]]; unfold resolved_world.
  - rewrite Hf. reflexivity.
  - rewrite Hn. destruct (falsy filename); reflexivity.
Qed.

(** X5.  With a file name given, or with the image directory in place,
    [save_fits] leaves every path alone but the target path, whatever the
    other arguments and however the run ends. *)
Theorem save_fits_frame (model : Model) (filename : option string)
    (image_nr : Z) (zoom : num) (npix_x npix_y : nat) (method : string)
    (w : world) (p : string) :
  falsy filename = false \/ is_Some (w.(fs) !! images_dir' model) ->
  p <> target_path' model filename ->
  (snd (save_fits' model filename image_nr zoom npix_x npix_y method w)).(fs)
    !! p
  = w.(fs) !! p.
Proof.
  intros Hdir Hpath.
  destruct (model.(images)) as [|im0 ims] eqn:Himages.
  - unfold save_fits. rewrite Himages. reflexivity.
  - assert (Hne : model.(images) <> []) by (rewrite Himages; discriminate).
    pose proof (save_fits_outcome model filename image_nr zoom npix_x npix_y
                  method w Hne) as Hout.
    rewrite (resolved_world_same model filename w Hdir) in Hout.
    assert (Hbase :
      (cleared_world (target_path' model filename) w).(fs) !! p
      = w.(fs) !! p).
    { apply cleared_world_other. exact Hpath. }
    destruct Hout as [(e & _ & Hfs)|(_ & _ & hdr & cube & Hfs)];
      rewrite Hfs.
    + exact Hbase.
    + rewrite lookup_insert_ne by congruence. exact Hbase.
Qed.

(** X6.  On a model with images, a regular file found at the target path never
    survives the call: if the call raises the path is left empty, and if
    it returns the path holds the new cube. *)
Theorem save_fits_old_file_lost (model : Model) (filename : option string)
    (image_nr : Z) (zoom : num) (npix_x npix_y : nat) (method : string)
    (w : world) (old : content) :
  model.(images) <> [] ->
  w.(fs) !! target_path' model filename = Some (File old) ->
  let res := save_fits' model filename image_nr zoom npix_x npix_y method w in
  (exists e, fst res = Raise e /\
     (snd res).(fs) !! target_path' model filename = None) \/
  (fst res = Ok () /\
   exists hdr cube,
     (snd res).(fs) !! target_path' model filename
     = Some (File (Fits hdr cube))).
Proof.
  intros Hne Hold. cbv zeta.
  pose proof (save_fits_outcome model filename image_nr zoom npix_x npix_y
                method w Hne) as Hout.
  destruct Hout as [(e & He & Hfs)|(Hok & _ & hdr & cube & Hfs)].
  - left. exists e. split; [exact He|]. rewrite Hfs.
    apply cleared_world_free.
    rewrite (resolved_world_target os_path_abspath os_path_dirname).
    rewrite Hold. discriminate.
  - right. split; [exact Hok|]. exists hdr, cube. rewrite Hfs.
    apply lookup_insert_eq.
Qed.

(** X7.  On a model with images, a directory at the target path makes every
    call raise, and the directory stays. *)
Theorem save_fits_target_directory (model : Model) (filename : option string)
    (image_nr : Z) (zoom : num) (npix_x npix_y : nat) (method : string)
    (w : world) :
  model.(images) <> [] ->
  w.(fs) !! target_path' model filename = Some Directory ->
  let res := save_fits' model filename image_nr zoom npix_x npix_y method w in
  (exists e, fst res = Raise e) /\
  (snd res).(fs) !! target_path' model filename = Some Directory.
Proof.
  intros Hne Hdir. cbv zeta.
  pose proof (save_fits_outcome model filename image_nr zoom npix_x npix_y
                method w Hne) as Hout.
  assert (Hbase :
    (cleared_world (target_path' model filename)
       (resolved_world' model filename w)).(fs)
      !! target_path' model filename = Some Directory).
  { unfold cleared_world.
    rewrite (resolved_world_target os_path_abspath os_path_dirname), Hdir.
    rewrite (resolved_world_target os_path_abspath os_path_dirname).
    exact Hdir. }
  destruct Hout as [(e & He & Hfs)|(_ & Hnone & _)].
  - split; [exists e; exact He|]. rewrite Hfs. exact Hbase.
  - rewrite Hbase in Hnone. discriminate.
Qed.

(** X8.  On a model with images and without a file name, the image directory
    exists after the call, however the call ends. *)
Theorem save_fits_image_directory (model : Model) (filename : option string)
    (image_nr : Z) (zoom : num) (npix_x npix_y : nat) (method : string)
    (w : world) :
  model.(images) <> [] ->
  falsy filename = true ->
  is_Some ((snd (save_fits' model filename image_nr zoom npix_x npix_y
                   method w)).(fs) !! images_dir' model).
Proof.
  intros Hne Hfalsy.
  pose proof (save_fits_outcome model filename image_nr zoom npix_x npix_y
                method w Hne) as Hout.
  assert (Htarget : target_path' model filename
                    = images_dir' model +:+ "image.fits").
  { unfold target_path. rewrite Hfalsy. reflexivity. }
  assert (Hbase : is_Some
    ((cleared_world (target_path' model filename)
        (resolved_world' model filename w)).(fs) !! images_dir' model)).
  { rewrite cleared_world_other
      by (rewrite Htarget; apply images_dir_not_target).
    unfold resolved_world. rewrite Hfalsy.
    destruct (w.(fs) !! images_dir' model) as [n|] eqn:Hd.
    - rewrite Hd. eexists; reflexivity.
    - simpl. rewrite lookup_insert_eq. eexists; reflexivity. }
  destruct Hout as [(e & _ & Hfs)|(_ & _ & hdr & cube & Hfs)]; rewrite Hfs.
  - exact Hbase.
  - rewrite lookup_insert_ne; [exact Hbase|].
    rewrite Htarget. intros E. symmetry in E. revert E.
    apply images_dir_not_target.
Qed.

Lemma py_index_out_of_range {X : Type} (l : list X) (i : Z) :
  (Z.of_nat (length l) <= i \/ i < - Z.of_nat (length l))%Z ->
  py_index l i = Raise IndexError.
Proof.
  intros Hi. unfold py_index.
  destruct (Z.ltb_spec i 0) as [Hneg|Hpos].
  - destruct (Z.leb_spec 0 (i + Z.of_nat (length l))) as [H0|_];
      [|reflexivity].
    destruct (Z.ltb_spec (i + Z.of_nat (length l)) (Z.of_nat (length l)))
      as [_|_]; [|reflexivity].
    lia.
  - destruct (Z.leb_spec 0 i) as [_|_]; [|reflexivity].
    destruct (Z.ltb_spec i (Z.of_nat (length l))) as [Hlt|_]; [|reflexivity].
    lia.
Qed.

(** X9.  An image index out of range is found out only after the older file
    at the target path has been removed: [IndexError], and the file is
    gone. *)
Theorem save_fits_image_index (model : Model) (filename : option string)
    (image_nr : Z) (zoom : num) (npix_x npix_y : nat) (method : string)
    (w : world) :
  model.(images) <> [] ->
  (Z.of_nat (length model.(images)) <= image_nr \/
   image_nr < - Z.of_nat (length model.(images)))%Z ->
  save_fits' model filename image_nr zoom npix_x npix_y method w =
  (Raise IndexError,
   cleared_world (target_path' model filename)
     (resolved_world' model filename w)).
Proof.
  intros Hne Hrange.
  unfold save_fits. rewrite (no_images_guard model Hne).
  rewrite (IO_bind_run _ _ _ _ _
             (resolve_filename_run os_path_abspath os_path_dirname
                model filename w)).
  rewrite (IO_bind_run _ _ _ _ _ (isfile_run _ _)). cbv beta.
  rewrite (IO_bind_run _ _ _ _ _ (remove_run _ _)).
  unfold lift, mbind, IO_bind.
  rewrite (py_index_out_of_range _ _ Hrange). reflexivity.
Qed.

Lemma boundaries_nonempty (coords : list num) (zoom : num) :
  coords <> [] -> exists lo hi, boundaries coords zoom = Ok (lo, hi).
Proof.
  intros Hne. destruct coords as [|x l]; [contradiction|].
  unfold boundaries. cbn [np_min np_max]. rewrite !bind_Ok.
  eexists _, _. reflexivity.
Qed.

Lemma frequency_spacing_single (freqs : list num) :
  (length freqs <= 1)%nat -> frequency_spacing freqs = Raise ValueError.
Proof.
  intros Hlen. unfold frequency_spacing.
  destruct freqs as [|x [|y l]]; [reflexivity | reflexivity |].
  simpl in Hlen. lia.
Qed.

(** X10.  A frequency array with a single bin, or none, has no consecutive
    difference: [save_fits] raises [ValueError] at the regularity check,
    after the older file at the target path has been removed. *)
Theorem save_fits_single_bin (model : Model) (filename : option string)
    (image_nr : Z) (zoom : num) (npix_x npix_y : nat) (method : string)
    (w : world) (im : Image) (freqs : list num) :
  py_index model.(images) image_nr = Ok im ->
  im.(ImX) <> [] -> im.(ImY) <> [] ->
  py_index model.(nu) 0 = Ok freqs ->
  (length freqs <= 1)%nat ->
  save_fits' model filename image_nr zoom npix_x npix_y method w =
  (Raise ValueError,
   cleared_world (target_path' model filename)
     (resolved_world' model filename w)).
Proof.
  intros Him Hx Hy Hfreqs Hlen.
  assert (Hne : model.(images) <> []).
  { intros E. rewrite E, py_index_nil in Him. discriminate. }
  destruct (boundaries_nonempty im.(ImX) zoom Hx) as (xlo & xhi & Hbx).
  destruct (boundaries_nonempty im.(ImY) zoom Hy) as (ylo & yhi & Hby).
  unfold save_fits. rewrite (no_images_guard model Hne).
  rewrite (IO_bind_run _ _ _ _ _
             (resolve_filename_run os_path_abspath os_path_dirname
                model filename w)).
  rewrite (IO_bind_run _ _ _ _ _ (isfile_run _ _)). cbv beta.
  rewrite (IO_bind_run _ _ _ _ _ (remove_run _ _)).
  unfold lift, mbind, IO_bind.
  rewrite Him, Hbx, Hby, Hfreqs, (frequency_spacing_single freqs Hlen).
  reflexivity.
Qed.

(** X11.  An image without sample points cannot be exported: [np.min] of the
    empty coordinate array raises [ValueError], after the older file at
    the target path has been removed. *)
Theorem save_fits_no_samples (model : Model) (filename : option string)
    (image_nr : Z) (zoom : num) (npix_x npix_y : nat) (method : string)
    (w : world) (im : Image) :
  py_index model.(images) image_nr = Ok im ->
  im.(ImX) = [] ->
  save_fits' model filename image_nr zoom npix_x npix_y method w =
  (Raise ValueError,
   cleared_world (target_path' model filename)
     (resolved_world' model filename w)).
Proof.
  intros Him Hx.
  assert (Hne : model.(images) <> []).
  { intros E. rewrite E, py_index_nil in Him. discriminate. }
  unfold save_fits. rewrite (no_images_guard model Hne).
  rewrite (IO_bind_run _ _ _ _ _
             (resolve_filename_run os_path_abspath os_path_dirname
                model filename w)).
  rewrite (IO_bind_run _ _ _ _ _ (isfile_run _ _)). cbv beta.
  rewrite (IO_bind_run _ _ _ _ _ (remove_run _ _)).
  unfold lift, mbind, IO_bind.
  rewrite Him, Hx. reflexivity.
Qed.

(* --------------------------------------------------------------------- *)
(** *** Mean steps *)
(* --------------------------------------------------------------------- *)

Lemma np_diff_finite_eq (l : list R) :
  np_diff (map Finite l) = map Finite (Rdiff l).
Proof.
  induction l as [|x l IH]; [reflexivity|].
  destruct l as [|y l']; [reflexivity|].
  change (np_diff (map Finite (x :: y :: l')))
    with ((Finite y - Finite x)%num :: np_diff (map Finite (y :: l'))).
  rewrite IH. reflexivity.
Qed.

Lemma length_Rdiff (l : list R) : length (Rdiff l) = (length l - 1)%nat.
Proof.
  induction l as [|x l IH]; [reflexivity|].
  destruct l as [|y l']; [reflexivity|].
  change (Rdiff (x :: y :: l')) with ((y - x) :: Rdiff (y :: l')).
  simpl length in *. rewrite IH. lia.
Qed.

Lemma last_default (z : R) (l : list R) (d1 d2 : R) :
  List.last (z :: l) d1 = List.last (z :: l) d2.
Proof.
  revert z. induction l as [|y l IH]; intros z; [reflexivity|].
  change (List.last (z :: y :: l) d1) with (List.last (y :: l) d1).
  change (List.last (z :: y :: l) d2) with (List.last (y :: l) d2).
  apply IH.
Qed.

Lemma last_cons (y : R) (l : list R) (x : R) :
  List.last (y :: l) x = List.last l y.
Proof.
  destruct l as [|z l]; [reflexivity|].
  change (List.last (y :: z :: l) x) with (List.last (z :: l) x).
  apply last_default.
Qed.

(** The differences telescope: their sum is the last element minus the
    first. *)
Lemma Rsum_Rdiff (x : R) (l : list R) :
  Rsum (Rdiff (x :: l)) = List.last l x - x.
Proof.
  revert x. induction l as [|y l IH]; intros x.
  - unfold Rsum. simpl. lra.
  - change (Rdiff (x :: y :: l)) with ((y - x) :: Rdiff (y :: l)).
    rewrite Rsum_cons, IH, last_cons. lra.
Qed.

(** The mean step of a finite array is its span over the number of
    steps. *)
Lemma mean_step (x : R) (l : list R) :
  l <> [] ->
  np_mean (np_diff (map Finite (x :: l)))
  = Finite ((List.last l x - x) / INR (length l)).
Proof.
  intros Hne. unfold np_mean.
  rewrite np_diff_finite_eq, py_sum_finite, length_map, length_Rdiff.
  rewrite Rsum_Rdiff.
  replace (length (x :: l) - 1)%nat with (length l) by (simpl; lia).
  apply num_div_finite. apply not_0_INR.
  destruct l; [contradiction | discriminate].
Qed.





(** The mean step of a tabulated array. *)
Lemma mean_step_range (g : nat -> R) (m : nat) :
  np_mean (np_diff (map Finite (map g (range (S (S m))))))
  = Finite ((g (S m) - g 0%nat) / INR (S m)).
Proof.
  unfold range.
  change (map Finite (map g (seq 0 (S (S m)))))
    with (map Finite (g 0%nat :: map g (seq 1 (S m)))).
  rewrite mean_step.
  - rewrite seq_S, map_app. cbn [map]. rewrite last_last.
    rewrite length_app, length_map, length_seq. cbn [length].
    replace (m + 1)%nat with (S m) by lia.
    replace (1 + m)%nat with (S m) by lia. reflexivity.
  - rewrite seq_S, map_app. intros E. apply (f_equal (@length R)) in E.
    rewrite length_app in E. simpl in E. lia.
Qed.


(** X12.  For at least two finite frequency bins the regularity check returns;
    the warning is raised exactly when no spacing is stored, and a stored
    spacing is the span of the frequencies over the number of steps. *)
Theorem frequency_spacing_span (f0 : R) (rest : list R) :
  rest <> [] ->
  exists (dfreq : option num) (warn : bool),
    frequency_spacing (map Finite (f0 :: rest)) = Ok (dfreq, warn) /\
    ((warn = true /\ dfreq = None) \/
     (warn = false /\
      dfreq = Some (Finite ((List.last rest f0 - f0) / INR (length rest))))).
Proof.
  intros Hne.
  destruct (frequency_spacing_finite (map Finite (f0 :: rest)))
    as (dmax & dmin & _ & _ & _ & Hcases).
  - apply Forall_finite_map.
  - rewrite length_map. destruct rest; [contradiction | simpl; lia].
  - destruct Hcases as [[_ E]|[_ E]]; rewrite E.
    + exists None, true. split; [reflexivity|]. left. split; reflexivity.
    + eexists _, false. split; [reflexivity|]. right.
      split; [reflexivity|]. rewrite mean_step by exact Hne. reflexivity.
Qed.

Lemma frequency_spacing_span_witness :
  exists (dfreq : option num) (warn : bool),
    frequency_spacing [Finite 1.0; Finite 2.0; Finite 3.01] = Ok (dfreq, warn) /\
    ((warn = true /\ dfreq = None) \/
     (warn = false /\ dfreq = Some (Finite ((3.01 - 1.0) / INR 2)))).
Proof.
  apply (frequency_spacing_span 1.0 [2.0; 3.01]). discriminate.
Defined.

Lemma Rdiff_uniform (f0 d : R) (n s : nat) (x : R) :
  In x (Rdiff (map (fun i => f0 + INR i * d) (seq s n))) -> x = d.
Proof.
  revert s. induction n as [|n IH]; intros s Hx; [contradiction|].
  destruct n as [|n'].
  - simpl in Hx. contradiction.
  - change (Rdiff (map (fun i => f0 + INR i * d) (seq s (S (S n')))))
      with ((f0 + INR (S s) * d - (f0 + INR s * d))
            :: Rdiff (map (fun i => f0 + INR i * d) (seq (S s) (S n'))))
      in Hx.
    destruct Hx as [<-|Hx].
    + rewrite S_INR. lra.
    + apply (IH (S s)). exact Hx.
Qed.

(** X13.  Frequencies in arithmetic progression, at least two of them, pass the
    regularity check without a warning, and the spacing stored is their
    step. *)
Theorem frequency_spacing_uniform (f0 d : R) (n : nat) :
  (2 <= n)%nat ->
  frequency_spacing (uniform_freqs f0 d n) = Ok (Some (Finite d), false).
Proof.
  intros Hn. destruct n as [|[|m]]; try lia.
  unfold uniform_freqs.
  rewrite <- (map_map (fun i => f0 + INR i * d) Finite).
  set (l := map (fun i => f0 + INR i * d) (range (S (S m)))).
  destruct (frequency_spacing_finite (map Finite l))
    as (dmax & dmin & Hmax & Hmin & _ & Hcases).
  { apply Forall_finite_map. }
  { unfold l. rewrite !length_map, length_range. lia. }
  assert (Hdne : Rdiff l <> []).
  { intros E. apply (f_equal (@length R)) in E.
    rewrite length_Rdiff in E. unfold l in E.
    rewrite length_map, length_range in E. simpl in E. lia. }
  rewrite np_diff_finite_eq in Hmax, Hmin.
  destruct (np_max_finite _ Hdne) as (dmax' & Hmax' & Hin_max & _).
  destruct (np_min_finite _ Hdne) as (dmin' & Hmin' & Hin_min & _).
  rewrite Hmax' in Hmax. rewrite Hmin' in Hmin.
  injection Hmax as <-. injection Hmin as <-.
  apply Rdiff_uniform in Hin_max. apply Rdiff_uniform in Hin_min.
  subst dmax' dmin'.
  destruct Hcases as [[Hirr _]|[_ E]].
  - exfalso. unfold spacing_irregular in Hirr.
    replace (d - d) with 0 in Hirr by lra. rewrite Rabs_R0 in Hirr.
    pose proof (Rabs_pos ((d + d) / 2)). lra.
  - rewrite E. unfold l. rewrite mean_step_range.
    do 4 f_equal. simpl INR at 2. field. apply not_0_INR. lia.
Qed.

Lemma frequency_spacing_uniform_witness :
  frequency_spacing (uniform_freqs 230.0 0.5 4) = Ok (Some (Finite 0.5), false).
Proof.
  apply (frequency_spacing_uniform 230.0 0.5 4). lia.
Defined.

(* --------------------------------------------------------------------- *)
(** *** What a completed export writes *)
(* --------------------------------------------------------------------- *)




End ExporterEdges.

(* ===================================================================== *)
(** ** The edge cases of the exporter on the small model *)
(* ===================================================================== *)

Lemma example_images_nonempty : example_model.(images) <> [].
Proof. discriminate. Qed.

Lemma save_fits_frame_witness :
  (snd (save_fits example_abspath example_dirname nearest_interpolator
          example_model (Some "/out/cube.fits") (-1) (Finite 1.3) 2 3
          "nearest" example_world)).(fs) !! "/work/images/image.fits"
  = Some (File (Bytes "old")).
Proof.
  rewrite (save_fits_frame example_abspath example_dirname
             nearest_interpolator example_model (Some "/out/cube.fits")
             (-1) (Finite 1.3) 2 3 "nearest" example_world
             "/work/images/image.fits").
  - reflexivity.
  - left. reflexivity.
  - discriminate.
Defined.

Lemma save_fits_old_file_lost_witness :
  let res := save_fits example_abspath example_dirname nearest_interpolator
               example_model None (-1) (Finite 1.3) 2 3 "nearest"
               example_world in
  (exists e, fst res = Raise e /\
     (snd res).(fs) !! "/work/images/image.fits" = None) \/
  (fst res = Ok () /\
   exists hdr cube,
     (snd res).(fs) !! "/work/images/image.fits"
     = Some (File (Fits hdr cube))).
Proof.
  apply (save_fits_old_file_lost example_abspath example_dirname
           nearest_interpolator example_model None (-1) (Finite 1.3) 2 3
           "nearest" example_world (Bytes "old")).
  - exact example_images_nonempty.
  - exact example_world_target.
Defined.

Lemma save_fits_target_directory_witness :
  let res := save_fits example_abspath example_dirname nearest_interpolator
               example_model (Some "/work/images/") (-1) (Finite 1.3) 2 2
               "nearest" example_world in
  (exists e, fst res = Raise e) /\
  (snd res).(fs) !! "/work/images/" = Some Directory.
Proof.
  apply (save_fits_target_directory example_abspath example_dirname
           nearest_interpolator example_model (Some "/work/images/") (-1)
           (Finite 1.3) 2 2 "nearest" example_world).
  - exact example_images_nonempty.
  - reflexivity.
Defined.

Lemma save_fits_image_directory_witness :
  is_Some
    ((snd (save_fits example_abspath example_dirname nearest_interpolator
             example_model None (-1) (Finite 1.3) 2 2 "nearest"
             {| fs := ∅; stdout := [] |})).(fs) !! "/work/images/").
Proof.
  apply (save_fits_image_directory example_abspath example_dirname
           nearest_interpolator example_model None (-1) (Finite 1.3) 2 2
           "nearest" {| fs := ∅; stdout := [] |}).
  - exact example_images_nonempty.
  - reflexivity.
Defined.

Lemma save_fits_image_index_witness :
  save_fits example_abspath example_dirname nearest_interpolator
    example_model None 1 (Finite 1.3) 2 2 "nearest" example_world
  = (Raise IndexError,
     cleared_world "/work/images/image.fits" example_world).
Proof.
  apply (save_fits_image_index example_abspath example_dirname
           nearest_interpolator example_model None 1 (Finite 1.3) 2 2
           "nearest" example_world).
  - exact example_images_nonempty.
  - left. simpl. lia.
Defined.

Lemma save_fits_single_bin_witness :
  save_fits example_abspath example_dirname nearest_interpolator
    single_bin_model None (-1) (Finite 1.3) 2 2 "nearest" example_world
  = (Raise ValueError,
     cleared_world "/work/images/image.fits" example_world).
Proof.
  apply (save_fits_single_bin example_abspath example_dirname
           nearest_interpolator single_bin_model None (-1) (Finite 1.3) 2 2
           "nearest" example_world example_image [Finite 1.0]).
  - reflexivity.
  - discriminate.
  - discriminate.
  - reflexivity.
  - simpl. lia.
Defined.

Lemma save_fits_no_samples_witness :
  save_fits example_abspath example_dirname nearest_interpolator
    no_samples_model None (-1) (Finite 1.3) 2 2 "nearest" example_world
  = (Raise ValueError,
     cleared_world "/work/images/image.fits" example_world).
Proof.
  apply (save_fits_no_samples example_abspath example_dirname
           nearest_interpolator no_samples_model None (-1) (Finite 1.3) 2 2
           "nearest" example_world no_samples_image).
  - reflexivity.
  - reflexivity.
Defined.



(* ===================================================================== *)
(** ** More on the radiative quantities *)
(* ===================================================================== *)

Lemma mapM_ext_in {X Y : Type} (f g : X -> result Y) (l : list X) :
  (forall x, In x l -> f x = g x) -> mapM f l = mapM g l.
Proof.
  induction l as [|x l IH]; intros Hfg; [reflexivity|].
  rewrite !mapM_cons, (Hfg x (or_introl eq_refl)).
  rewrite IH by (intros y Hy; apply Hfg; right; exact Hy).
  reflexivity.
Qed.

(** X16.  [lineEmissivity] reads [jrad[k]] and never uses it: with any other
    list of [nrad] lower-level indices, valid or not, the result is the
    same. *)
Theorem lineEmissivity_ignores_jrad (ld : LineData) (jrad' : list Z)
    (pop : list num) :
  length ld.(jrad) = ld.(nrad) -> length jrad' = ld.(nrad) ->
  lineEmissivity (with_jrad jrad' ld) pop = lineEmissivity ld pop.
Proof.
  intros Hj Hj'. unfold lineEmissivity. cbn [with_jrad nrad irad jrad
    frequency A].
  apply mapM_ext_in. intros k Hk. apply in_range in Hk.
  destruct (getitem ld.(irad) k) as [i|e]; [|reflexivity].
  rewrite !bind_Ok.
  rewrite (getitem_lt jrad' k 0%Z) by lia.
  rewrite (getitem_lt ld.(jrad) k 0%Z) by lia.
  reflexivity.
Qed.

Lemma lineEmissivity_ignores_jrad_witness :
  lineEmissivity (with_jrad [7%Z] inverted_linedata) inverted_pop
  = lineEmissivity inverted_linedata inverted_pop.
Proof.
  apply (lineEmissivity_ignores_jrad inverted_linedata [7%Z] inverted_pop);
    reflexivity.
Defined.

(** X17.  With too few lower-level indices [lineEmissivity] raises
    [IndexError], although it does not use them. *)
Theorem lineEmissivity_short_jrad (ld : LineData) (pop : list num) :
  (0 < ld.(nrad))%nat -> ld.(irad) <> [] -> ld.(jrad) = [] ->
  lineEmissivity ld pop = Raise IndexError.
Proof.
  intros Hn Hi Hj. unfold lineEmissivity.
  destruct ld.(nrad) as [|n]; [lia|].
  unfold range. cbn [seq]. apply mapM_Raise_head.
  rewrite (getitem_lt ld.(irad) 0 0%Z)
    by (destruct ld.(irad); [contradiction | simpl; lia]).
  rewrite bind_Ok, Hj. reflexivity.
Qed.

Lemma lineEmissivity_short_jrad_witness :
  lineEmissivity (with_jrad [] inverted_linedata) inverted_pop
  = Raise IndexError.
Proof.
  apply (lineEmissivity_short_jrad (with_jrad [] inverted_linedata)
           inverted_pop).
  - simpl. lia.
  - discriminate.
  - reflexivity.
Defined.











Lemma num_div_zero_zero (n d : R) :
  n = 0 -> d = 0 -> (Finite n / Finite d)%num = NaN.
Proof.
  intros Hn Hd. simpl.
  destruct (Req_dec_T d 0) as [_|N]; [|contradiction].
  destruct (Req_dec_T n 0) as [_|N]; [|contradiction].
  reflexivity.
Qed.

(** X21.  At frequency zero the Planck function is [0/0]: [NaN], whatever the
    temperature other than zero. *)
Theorem planck_zero_frequency (T : R) :
  T <> 0 -> planck (Finite T) (Finite 0) = NaN.
Proof.
  intros HT. unfold planck, h, c, kb.
  cbn [num_pow num_mul].
  pose proof c_pos as Hc. pose proof kb_pos as Hkb. cbn [to_R c kb] in Hc, Hkb.
  rewrite (num_div_finite (2.0 * _)) by nra.
  cbn [num_mul].
  rewrite (num_div_finite _ (_ * T)) by nra.
  cbn [num_expm1].
  apply num_div_zero_zero.
  - lra.
  - replace (6.62607004E-34 * 0 / (1.38064852E-23 * T)) with 0.
    + rewrite exp_0. lra.
    + unfold Rdiv. lra.
Qed.

Lemma planck_zero_frequency_witness : planck (Finite 300) (Finite 0) = NaN.
Proof. apply (planck_zero_frequency 300). lra. Defined.

(* --------------------------------------------------------------------- *)
(** *** LTE populations: errors and invariances *)
(* --------------------------------------------------------------------- *)

Lemma mapM_first_raise {X Y : Type} (f : X -> result Y) (l1 l2 : list X)
    (x : X) (e : exn) :
  (forall y, In y l1 -> exists v, f y = Ok v) ->
  f x = Raise e ->
  mapM f (l1 ++ x :: l2) = Raise e.
Proof.
  intros Hok Hx. induction l1 as [|y l1 IH].
  - apply mapM_Raise_head. exact Hx.
  - change ((y :: l1) ++ x :: l2) with (y :: (l1 ++ x :: l2)).
    rewrite mapM_cons.
    destruct (Hok y (or_introl eq_refl)) as [v Hv]. rewrite Hv, bind_Ok.
    rewrite IH by (intros z Hz; apply Hok; right; exact Hz).
    reflexivity.
Qed.

(** X22.  [LTEpop] raises nothing but [IndexError], and raises it exactly when
    [weight] or [energy] has fewer than [nlev] entries; otherwise it
    returns [nlev] populations, whatever the values and the temperature
    other than zero, and entries beyond [nlev] are ignored. *)
Theorem LTEpop_index_error (ld : LineData) (t : R) :
  t <> 0 ->
  let T := Finite t in
  (((length ld.(weight) < ld.(nlev))%nat \/
    (length ld.(energy) < ld.(nlev))%nat) /\
   LTEpop ld T = Raise IndexError)
  \/
  (((ld.(nlev) <= length ld.(weight))%nat /\
    (ld.(nlev) <= length ld.(energy))%nat) /\
   exists pop, LTEpop ld T = Ok pop /\ length pop = ld.(nlev)).
Proof.
  intros _ T.
  destruct (le_lt_dec ld.(nlev) (length ld.(weight))) as [Hw|Hw];
    [destruct (le_lt_dec ld.(nlev) (length ld.(energy))) as [He|He]|].
  - right. split; [split; assumption|].
    unfold LTEpop.
    rewrite (mapM_Ok_map _
      (fun i => (nth i ld.(weight) NaN
                 * num_exp (- nth i ld.(energy) NaN / (kb * T)))%num)).
    + rewrite bind_Ok. eexists. split; [reflexivity|].
      rewrite !length_map. apply length_range.
    + intros i Hi. apply in_range in Hi.
      rewrite (getitem_lt ld.(weight) i NaN) by lia. rewrite bind_Ok.
      rewrite (getitem_lt ld.(energy) i NaN) by lia. reflexivity.
  - left. split; [right; exact He|].
    unfold LTEpop, range.
    replace ld.(nlev)
      with (length ld.(energy) + S (ld.(nlev) - length ld.(energy) - 1))%nat
      by lia.
    rewrite seq_app. cbn [seq].
    rewrite (mapM_first_raise _ _ _ _ IndexError); [reflexivity | |].
    + intros i Hi. apply in_seq in Hi.
      rewrite (getitem_lt ld.(weight) i NaN) by lia. rewrite bind_Ok.
      rewrite (getitem_lt ld.(energy) i NaN) by lia. eexists. reflexivity.
    + rewrite (getitem_lt ld.(weight) _ NaN) by lia. rewrite bind_Ok.
      rewrite getitem_ge by lia. reflexivity.
  - left. split; [left; exact Hw|].
    unfold LTEpop, range.
    set (m := Nat.min (length ld.(weight)) (length ld.(energy))).
    assert (Hm : (m <= length ld.(weight))%nat /\
                 (m <= length ld.(energy))%nat /\
                 (m = length ld.(weight) \/
                  (m = length ld.(energy) /\
                   length ld.(energy) < length ld.(weight))%nat))
      by (unfold m; lia).
    clearbody m.
    replace ld.(nlev) with (m + S (ld.(nlev) - m - 1))%nat by lia.
    rewrite seq_app. cbn [seq].
    rewrite (mapM_first_raise _ _ _ _ IndexError); [reflexivity | |].
    + intros i Hi. apply in_seq in Hi.
      rewrite (getitem_lt ld.(weight) i NaN) by lia. rewrite bind_Ok.
      rewrite (getitem_lt ld.(energy) i NaN) by lia. eexists. reflexivity.
    + destruct (le_lt_dec (length ld.(weight)) (length ld.(energy)))
        as [Hle|Hlt].
      * rewrite (getitem_ge ld.(weight)) by lia. reflexivity.
      * rewrite (getitem_lt ld.(weight) _ NaN) by lia. rewrite bind_Ok.
        rewrite (getitem_ge ld.(energy)) by lia. reflexivity.
Qed.

Lemma LTEpop_index_error_witness :
  LTEpop short_weight_linedata (Finite 300) = Raise IndexError.
Proof.
  destruct (LTEpop_index_error short_weight_linedata 300)
    as [[_ E]|[[Hw _] _]]; [lra | exact E |].
  simpl in Hw. lia.
Defined.

Lemma Rsum_mult (l : list R) (s : R) :
  Rsum (map (fun r => r * s) l) = Rsum l * s.
Proof.
  induction l as [|x l IH].
  - unfold Rsum. simpl. lra.
  - simpl map. rewrite !Rsum_cons, IH. lra.
Qed.

(** Line data whose Boltzmann terms are those of [ld] times a common
    factor have the populations of [ld]. *)
Lemma LTEpop_common_factor (ld ld' : LineData) (T s : R) :
  LineData_wf ld -> levels_finite ld ->
  LineData_wf ld' -> levels_finite ld' ->
  ld'.(nlev) = ld.(nlev) ->
  T <> 0 -> s <> 0 -> partition_function ld T <> 0 ->
  (forall i, (i < ld.(nlev))%nat ->
     boltzmann ld' T i = boltzmann ld T i * s) ->
  LTEpop ld' (Finite T) = LTEpop ld (Finite T).
Proof.
  intros Hwf Hfin Hwf' Hfin' Hn HT Hs HZ Hb.
  assert (Hterms : map (boltzmann ld' T) (range ld'.(nlev))
                   = map (fun r => r * s)
                         (map (boltzmann ld T) (range ld.(nlev)))).
  { rewrite Hn, map_map. apply map_ext_in. intros i Hi.
    apply in_range in Hi. apply Hb. exact Hi. }
  assert (HZ' : partition_function ld' T = partition_function ld T * s).
  { unfold partition_function. rewrite Hterms. apply Rsum_mult. }
  rewrite (LTEpop_eq ld' T Hwf' Hfin' HT)
    by (rewrite HZ'; apply Rmult_integral_contrapositive_currified;
        assumption).
  rewrite (LTEpop_eq ld T Hwf Hfin HT HZ).
  do 2 f_equal. rewrite Hterms, HZ', !map_map.
  apply map_ext. intros i. field. split; assumption.
Qed.

Lemma nth_map_finite (g : num -> num) (l : list num) (i : nat) :
  (i < length l)%nat -> nth i (map g l) NaN = g (nth i l NaN).
Proof. intros Hi. apply (nth_map_lt g l i NaN NaN). exact Hi. Qed.



(** X24.  The populations depend on the statistical weights through their
    ratios only: multiplying every weight by the same factor, not zero,
    changes nothing. *)
Theorem LTEpop_weight_scale (ld : LineData) (T s : R) :
  LineData_wf ld -> levels_finite ld -> T <> 0 -> s <> 0 ->
  partition_function ld T <> 0 ->
  LTEpop (scale_weight s ld) (Finite T) = LTEpop ld (Finite T).
Proof.
  intros Hwf [Hw He] HT Hs HZ.
  apply (LTEpop_common_factor ld (scale_weight s ld) T s); try assumption.
  - split; [exact Hw | exact He].
  - destruct Hwf. constructor; cbn [scale_weight nlev weight energy nrad irad
      jrad frequency A Ba Bs]; try assumption.
    rewrite length_map. assumption.
  - split; cbn [scale_weight weight energy]; [|exact He].
    apply List.Forall_forall. intros x Hx. apply in_map_iff in Hx.
    destruct Hx as (g & <- & Hin).
    pose proof (proj1 (List.Forall_forall _ _) Hw g Hin) as Hfg.
    destruct g; try contradiction. exact Logic.I.
  - reflexivity.
  - intros i Hi. unfold boltzmann. cbn [scale_weight weight energy].
    destruct Hwf.
    rewrite nth_map_finite by lia.
    rewrite (is_finite_inv (nth i ld.(weight) NaN))
      by (apply is_finite_nth; [assumption | lia]).
    cbn [num_mul to_R]. lra.
Qed.

Lemma LTEpop_weight_scale_witness :
  LTEpop (scale_weight 2 inverted_linedata) (Finite 1)
  = LTEpop inverted_linedata (Finite 1).
Proof.
  apply (LTEpop_weight_scale inverted_linedata 1 2).
  - exact inverted_linedata_wf.
  - split; simpl; repeat constructor.
  - lra.
  - lra.
  - pose proof (partition_function_pos inverted_linedata 1
                  inverted_linedata_wf) as Hpos.
    assert (0 < partition_function inverted_linedata 1); [|lra].
    apply Hpos. split; simpl.
    + repeat constructor; simpl; lra.
    + apply Exists_cons_hd. simpl. lra.
Defined.

(* --------------------------------------------------------------------- *)
(** *** The line profile *)
(* --------------------------------------------------------------------- *)

Lemma amu_c2_pos : 0 < to_R amu * (to_R c * (to_R c * 1)).
Proof. simpl. lra. Qed.

(** The Doppler width for finite arguments. *)
Lemma dnu_value (ld : LineData) (k : Z) (nu_k T m v : R) :
  py_index ld.(frequency) k = Ok (Finite nu_k) ->
  ld.(inverse_mass) = Finite m ->
  0 <= doppler_radicand T m v ->
  dnu ld k (Finite T) (Finite v)
  = Ok (Finite (nu_k * sqrt (doppler_radicand T m v))).
Proof.
  intros Hnu Hm Hrad. unfold dnu. rewrite Hnu, bind_Ok, Hm.
  unfold kb, amu, c. cbn [num_pow num_mul].
  pose proof amu_c2_pos as Hpos. cbn [to_R amu c] in Hpos.
  rewrite num_div_finite by lra.
  cbn [num_mul num_add num_sqrt].
  change (2.0 * 1.38064852E-23 * T
          / (1.66053904E-27 * (2.99792458E+08 * (2.99792458E+08 * 1))) * m + v)
    with (doppler_radicand T m v).
  destruct (Rlt_dec (doppler_radicand T m v) 0) as [Hneg|_]; [lra|].
  reflexivity.
Qed.

Lemma doppler_radicand_increasing (T1 T2 m v : R) :
  0 < m -> T1 < T2 -> doppler_radicand T1 m v < doppler_radicand T2 m v.
Proof.
  intros Hm HT. unfold doppler_radicand.
  pose proof amu_c2_pos as Hpos. pose proof kb_pos as Hkb.
  set (D := to_R amu * (to_R c * (to_R c * 1))) in *.
  assert (H1 : 2.0 * to_R kb * T1 / D < 2.0 * to_R kb * T2 / D).
  { unfold Rdiv. apply Rmult_lt_compat_r; [apply Rinv_0_lt_compat; lra|].
    nra. }
  nra.
Qed.

(** X25.  For a line of positive frequency and particles of positive inverse
    mass, the Doppler width is finite for every temperature [T >= 0] and
    turbulent term [vturb2 >= 0], and it grows with the temperature. *)
Theorem dnu_increasing (ld : LineData) (k : Z) (nu_k T1 T2 m v : R) :
  py_index ld.(frequency) k = Ok (Finite nu_k) ->
  ld.(inverse_mass) = Finite m ->
  0 < nu_k -> 0 < m -> 0 <= v -> 0 <= T1 -> T1 < T2 ->
  exists w1 w2 : R,
    dnu ld k (Finite T1) (Finite v) = Ok (Finite w1) /\
    dnu ld k (Finite T2) (Finite v) = Ok (Finite w2) /\
    0 <= w1 /\ w1 < w2.
Proof.
  intros Hnu Hm Hnu0 Hm0 Hv HT1 HT12.
  assert (Hr1 : 0 <= doppler_radicand T1 m v).
  { unfold doppler_radicand. pose proof amu_c2_pos. pose proof kb_pos.
    apply Rplus_le_le_0_compat; [|exact Hv].
    apply Rmult_le_pos; [|lra].
    apply Rmult_le_pos; [nra|]. apply Rlt_le, Rinv_0_lt_compat. assumption. }
  pose proof (doppler_radicand_increasing T1 T2 m v Hm0 HT12) as Hlt.
  exists (nu_k * sqrt (doppler_radicand T1 m v)),
         (nu_k * sqrt (doppler_radicand T2 m v)).
  split; [apply dnu_value; assumption|].
  split; [apply dnu_value; [assumption | assumption | lra]|].
  pose proof (sqrt_pos (doppler_radicand T1 m v)) as Hs1.
  pose proof (sqrt_lt_1_alt _ _ (conj Hr1 Hlt)) as Hs.
  split; nra.
Qed.

Lemma dnu_increasing_witness :
  exists w1 w2 : R,
    dnu inverted_linedata 0 (Finite 10) (Finite 0) = Ok (Finite w1) /\
    dnu inverted_linedata 0 (Finite 20) (Finite 0) = Ok (Finite w2) /\
    0 <= w1 /\ w1 < w2.
Proof.
  apply (dnu_increasing inverted_linedata 0 1 10 20 1 0);
    try reflexivity; lra.
Defined.





(* --------------------------------------------------------------------- *)
(** *** The relative error *)
(* --------------------------------------------------------------------- *)

(** X27.  For positive [a] and [b] the relative error is a finite number of
    absolute value below 2; it is zero exactly when [a = b], and changes
    sign when the arguments are exchanged. *)
Theorem relative_error_positive (a b : R) :
  0 < a -> 0 < b ->
  exists r : R,
    relative_error (Finite a) (Finite b) = Finite r /\
    relative_error (Finite b) (Finite a) = Finite (- r) /\
    Rabs r < 2 /\
    (r = 0 <-> a = b).
Proof.
  intros Ha Hb.
  exists (2.0 * (a - b) / (a + b)).
  rewrite !relative_error_finite.
  rewrite !num_div_finite by lra.
  assert (Hinv : 0 < / (a + b)) by (apply Rinv_0_lt_compat; lra).
  split; [reflexivity|].
  split; [f_equal; field; lra|].
  split.
  - apply Rabs_def1.
    + apply (Rmult_lt_reg_r (a + b)); [lra|].
      unfold Rdiv. rewrite Rmult_assoc, Rinv_l by lra. lra.
    + apply (Rmult_lt_reg_r (a + b)); [lra|].
      unfold Rdiv. rewrite Rmult_assoc, Rinv_l by lra. lra.
  - split.
    + intros E. unfold Rdiv in E. apply Rmult_integral in E.
      destruct E as [E|E]; lra.
    + intros ->. unfold Rdiv. replace (b - b) with 0 by lra. lra.
Qed.

Lemma relative_error_positive_witness :
  exists r : R,
    relative_error (Finite 1.01) (Finite 1.0) = Finite r /\ Rabs r < 2.
Proof.
  destruct (relative_error_positive 1.01 1.0) as (r & Hr & _ & Hb & _);
    try lra.
  exists r. split; assumption.
Defined.
